(** * Dester backend: the [/home] route

    A shallow embedding of [src/app/api/routes/home.py] (the route handler
    [home]) and of the error handler that [src/main.py] registers on the
    FastAPI application, followed by the properties of the homepage
    aggregation that are checked against them.

    Conventions of the embedding.
    - A BSON document and a Python [dict] are a [gmap string value].
    - Numbers (popularity, rating, time stamps) are integers; the order of
      non-NaN floats is total in the same way.
    - The category dictionaries of [mongo.categories] are Python objects
      that [home] mutates; they live in a heap of objects and the list
      holds references to them.
    - Exceptions are values of [exn]; a computation threads the world
      (heap, store, log of issued queries) and returns [exn + A].
    - [time.perf_counter], [logger.debug] and [random.seed] do not
      influence the data of the response and are left out, as is the
      [time_taken] field. *)

From stdpp Require Import gmap strings list fin_maps sorting.
From Stdlib Require Import ZArith Ascii.

Set Warnings "-register-all".
Set Default Proof Using "Type".

Open Scope Z_scope.

(* ===================================================================== *)
(** ** Values, documents, exceptions *)
(* ===================================================================== *)

Inductive value :=
| VNull
| VNum (n : Z)
| VStr (s : string)
| VArr (l : list value)
| VObj (d : gmap string value).

Abbreviation document := (gmap string value).

(** References to Python dictionaries. *)
Abbreviation loc := nat.

Inductive exn :=
| KeyError (key : string)
| TypeError
| StoreUnavailable
| CollectionNotFound.

(** ** Results and the state-and-exception monad *)

Abbreviation result A := (exn + A)%type.

Definition res_bind {A B} (r : result A) (k : A → result B) : result B :=
  match r with
  | inl e => inl e
  | inr a => k a
  end.

Fixpoint res_mapM {A B} (f : A → result B) (l : list A) : result (list B) :=
  match l with
  | [] => inr []
  | x :: xs =>
      res_bind (f x) (λ y, res_bind (res_mapM f xs) (λ ys, inr (y :: ys)))
  end.

(** The store: a collection of documents, or a collection whose queries
    fail because the server cannot be reached. *)
Inductive collection :=
| Docs (docs : list document)
| Unreachable.

(** Aggregation pipeline stages, as [home] writes them:
    [{'$sort': {f: -1}}], [{'$limit': n}] and [{'$project': {k: 0, ...}}]
    (an exclusion projection, given by the excluded keys). *)
Inductive stage :=
| SortDesc (field : string)
| Limit (n : nat)
| Project (excluded : list string).

Abbreviation pipeline := (list stage).

Record world := mkWorld {
  heap : gmap loc document;            (* Python dict objects *)
  mongo_categories : list loc;         (* [mongo.categories] *)
  mongo_metadata : gmap string collection;  (* [mongo.metadata] *)
  issued : list (value * pipeline)     (* queries sent to the store client *)
}.

Definition M (A : Type) : Type := world → world * result A.

#[global] Instance M_ret : MRet M := λ A a w, (w, inr a).
#[global] Instance M_bind : MBind M := λ A B k m w,
  match m w with
  | (w', inl e) => (w', inl e)
  | (w', inr a) => k a w'
  end.

Definition lift {A} (r : result A) : M A := λ w, (w, r).

Fixpoint for_each {A S} (l : list A) (body : A → S → M S) (acc : S) : M S :=
  match l with
  | [] => mret acc
  | x :: xs => acc' ← body x acc; for_each xs body acc'
  end.

(* ===================================================================== *)
(** ** Python primitives used by [home] *)
(* ===================================================================== *)

(** [d[k]] on a dictionary. *)
Definition py_getitem (d : document) (k : string) : result value :=
  match d !! k with
  | Some v => inr v
  | None => inl (KeyError k)
  end.

(** [obj[k]] and [obj[k] = v] on a dictionary object of the heap. *)
Definition getitem (l : loc) (k : string) : M value :=
  λ w, (w, py_getitem (heap w !!! l) k).

Definition setitem (l : loc) (k : string) (v : value) : M unit :=
  λ w, (mkWorld (<[l := <[k := v]> (heap w !!! l)]> (heap w))
                (mongo_categories w) (mongo_metadata w) (issued w),
        inr ()).

(** [v == s] for a string literal [s]. *)
Definition py_eq_str (v : value) (s : string) : bool :=
  match v with
  | VStr t => String.eqb t s
  | _ => false
  end.

(** [a < b]: defined between two numbers and between two strings; [None]
    and dictionaries support no ordering.  Lists are not covered by the
    model and are rejected as well. *)
Definition py_lt (a b : value) : result bool :=
  match a, b with
  | VNum x, VNum y => inr (x <? y)
  | VStr x, VStr y => inr (String.ltb x y)
  | _, _ => inl TypeError
  end.

(** Insertion of a decorated element in a list sorted in descending
    order; an element goes behind the elements that are not smaller, so
    that equal keys keep their order. *)
Fixpoint py_insert_desc {A} (x : value * A) (l : list (value * A))
    : result (list (value * A)) :=
  match l with
  | [] => inr [x]
  | y :: ys =>
      res_bind (py_lt x.1 y.1) (λ b,
        if b then res_bind (py_insert_desc x ys) (λ r, inr (y :: r))
        else inr (x :: y :: ys))
  end.

Fixpoint py_sort_desc {A} (l : list (value * A)) : result (list (value * A)) :=
  match l with
  | [] => inr []
  | x :: xs => res_bind (py_sort_desc xs) (py_insert_desc x)
  end.

(** [sorted(l, key=lambda k: k[field], reverse=True)]: the keys are
    computed first (a missing key raises [KeyError]), then the decorated
    list is sorted, stably, in descending order.  The outcome of a stable
    sort does not depend on the algorithm; the comparisons raise
    [TypeError] exactly when the list has two elements or more and its
    keys are not all numbers or all strings. *)
Definition sorted_desc (field : string) (l : list document)
    : result (list document) :=
  res_bind (res_mapM (λ d, py_getitem d field) l) (λ keys,
  res_bind (py_sort_desc (zip keys l)) (λ r, inr (r.*2))).

(* ===================================================================== *)
(** ** The document store *)
(* ===================================================================== *)

(** The store is MongoDB, outside of the repository; the three stages
    that [home] uses are given the meaning MongoDB documents for them:
    [$sort] orders the documents by the BSON order of their keys (here
    with ties in the order of the collection), [$limit] keeps the first
    documents, [$project] with zeros removes fields. *)

(** Splitting of a dotted field path, ['seasons.episodes.modified_time']. *)
Fixpoint split_path_aux (cur : string) (s : string) : list string :=
  match s with
  | EmptyString => [cur]
  | String c s' =>
      if Ascii.eqb c "."%char then cur :: split_path_aux EmptyString s'
      else split_path_aux (cur +:+ String c EmptyString) s'
  end.

Definition split_path (s : string) : list string := split_path_aux EmptyString s.

(** The values a field path reaches in a value; a path traverses the
    elements of an array, and an array at the end of the path contributes
    its elements. *)
Definition leaf_values (v : value) : list value :=
  match v with
  | VArr l => l
  | _ => [v]
  end.

Fixpoint path_values (p : list string) (v : value) : list value :=
  match p with
  | [] => leaf_values v
  | f :: p' =>
      let step (d : document) :=
        match d !! f with
        | Some v' => path_values p' v'
        | None => []
        end in
      match v with
      | VObj d => step d
      | VArr l => mjoin ((λ e, match e with VObj d => step d | _ => [] end) <$> l)
      | _ => []
      end
  end.

(** The BSON comparison order: null, numbers, strings, documents, arrays.
    Two documents, and two arrays, are left unordered here: they count as
    ties and keep the order of the collection. *)
Definition bson_rank (v : value) : Z :=
  match v with
  | VNull => 0
  | VNum _ => 1
  | VStr _ => 2
  | VObj _ => 3
  | VArr _ => 4
  end.

Definition bson_lt (a b : value) : bool :=
  match a, b with
  | VNum x, VNum y => x <? y
  | VStr x, VStr y => String.ltb x y
  | _, _ => bson_rank a <? bson_rank b
  end.

Definition bson_max (a b : value) : value := if bson_lt a b then b else a.

(** The key of a document in a descending sort: the largest value the
    path reaches, null when it reaches none. *)
Definition sort_key (field : string) (d : document) : value :=
  foldr bson_max VNull (path_values (split_path field) (VObj d)).

(** [{'$sort': {field: -1}}], as a stable insertion sort. *)
Fixpoint insert_desc (field : string) (x : document) (l : list document)
    : list document :=
  match l with
  | [] => [x]
  | y :: ys =>
      if bson_lt (sort_key field x) (sort_key field y)
      then y :: insert_desc field x ys
      else x :: y :: ys
  end.

Definition mongo_sort_desc (field : string) (l : list document) : list document :=
  foldr (insert_desc field) [] l.

(** An exclusion projection removes the listed top-level fields. *)
Definition project (excluded : list string) (d : document) : document :=
  foldr delete d excluded.

(** A pipeline runs its stages from left to right. *)
Definition run_stage (docs : list document) (st : stage) : list document :=
  match st with
  | SortDesc f => mongo_sort_desc f docs
  | Limit n => take n docs
  | Project ex => project ex <$> docs
  end.

Definition run_pipeline (p : pipeline) (docs : list document) : list document :=
  foldl run_stage docs p.

(** Modelled from the spec: the [mongo] object of [main] is an instance of
    the class [MongoDB] of [app.core], which is not part of the sources.
    [mongo.metadata[id]] names the collection of a category, and a query
    on it returns the documents of the pipeline, or fails with
    [StoreUnavailable] when the store cannot be reached and with
    [CollectionNotFound] when no collection backs the category.  Every
    call is recorded in [issued]. *)
Definition query_result (w : world) (col : value) (p : pipeline)
    : result (list document) :=
  match col with
  | VStr name =>
      match mongo_metadata w !! name with
      | Some (Docs docs) => inr (run_pipeline p docs)
      | Some Unreachable => inl StoreUnavailable
      | None => inl CollectionNotFound
      end
  | _ => inl CollectionNotFound
  end.

Definition aggregate (col : value) (p : pipeline) : M (list document) :=
  λ w, (mkWorld (heap w) (mongo_categories w) (mongo_metadata w)
                (issued w ++ [(col, p)]),
        query_result w col p).

(* ===================================================================== *)
(** ** [home] *)
(* ===================================================================== *)

Definition data_cap_limit : nat := 15.

Definition unwanted_keys : list string :=
  ["_id"; "cast"; "seasons"; "file_name"; "subtitles"; "external_ids";
   "collection"; "homepage"; "last_episode_to_air"; "next_episode_to_air"].

(** The three kinds of query, each [$sort], [$limit], [$project]. *)
Definition ranked (field : string) : pipeline :=
  [SortDesc field; Limit data_cap_limit; Project unwanted_keys].

(** The local lists of [home]; [categories_data] holds the category
    objects themselves. *)
Record locals := mkLocals {
  categories_data : list loc;
  carousel_data : list document;
  most_popular_movies_data : list document;
  most_popular_series_data : list document;
  top_rated_series_data : list document;
  top_rated_movies_data : list document;
  newly_added_movies_data : list document;
  newly_added_episodes_data : list document
}.

Definition no_locals : locals := mkLocals [] [] [] [] [] [] [] [].

(** The body of [for category in mongo.categories]. *)
Definition loop_body (category : loc) (a : locals) : M locals :=
  category_col ← getitem category "id";
  sorted_popularity_data ← aggregate category_col (ranked "popularity");
  setitem category "metadata" (VArr (VObj <$> sorted_popularity_data));;
  let categories_data' := categories_data a ++ [category] in
  let carousel_data' := carousel_data a ++ take 3 sorted_popularity_data in
  sorted_top_rated_data ← aggregate category_col (ranked "rating");
  type ← getitem category "type";
  if py_eq_str type "movies" then
    sorted_newly_added_data ← aggregate category_col (ranked "modified_time");
    mret (mkLocals categories_data' carousel_data'
            (most_popular_movies_data a ++ sorted_popularity_data)
            (most_popular_series_data a)
            (top_rated_series_data a)
            (top_rated_movies_data a ++ sorted_top_rated_data)
            (newly_added_movies_data a ++ sorted_newly_added_data)
            (newly_added_episodes_data a))
  else
    sorted_newly_added_data ←
      aggregate category_col (ranked "seasons.episodes.modified_time");
    mret (mkLocals categories_data' carousel_data'
            (most_popular_movies_data a)
            (most_popular_series_data a ++ sorted_popularity_data)
            (top_rated_series_data a ++ sorted_top_rated_data)
            (top_rated_movies_data a)
            (newly_added_movies_data a)
            (newly_added_episodes_data a ++ sorted_newly_added_data)).

(** The value of the ["data"] key of the response. *)
Record HomepageSnapshot := mkSnapshot {
  categories : list document;
  carousel : list document;
  most_popular_movies : list document;
  most_popular_series : list document;
  top_rated_movies : list document;
  top_rated_series : list document;
  newly_added_movies : list document;
  newly_added_episodes : list document
}.

Record response := mkResponse {
  ok : bool;
  message : string;
  data : HomepageSnapshot
}.

(** The dictionaries behind a list of references, as the serialiser of
    the response reads them. *)
Definition deref_all (ls : list loc) : M (list document) :=
  λ w, (w, inr ((λ l, heap w !!! l) <$> ls)).

Definition mongo_categories_get : M (list loc) :=
  λ w, (w, inr (mongo_categories w)).

Definition home : M response :=
  cats ← mongo_categories_get;
  a ← for_each cats loop_body no_locals;
  carousel_data ← lift (sorted_desc "popularity" (carousel_data a));
  most_popular_movies_data ←
    lift (sorted_desc "popularity" (most_popular_movies_data a));
  most_popular_series_data ←
    lift (sorted_desc "popularity" (most_popular_series_data a));
  top_rated_movies_data ←
    lift (sorted_desc "rating" (top_rated_movies_data a));
  top_rated_series_data ←
    lift (sorted_desc "rating" (top_rated_series_data a));
  newly_added_movies_data ←
    lift (sorted_desc "modified_time" (newly_added_movies_data a));
  categories_data ← deref_all (categories_data a);
  mret (mkResponse true "success"
          (mkSnapshot categories_data carousel_data
             most_popular_movies_data most_popular_series_data
             top_rated_movies_data top_rated_series_data
             newly_added_movies_data (newly_added_episodes_data a))).

(* ===================================================================== *)
(** ** The application: the handler registered for status 500 *)
(* ===================================================================== *)

(** The body [{"ok": False, "message": "Internal server error",
    "error_msg": str(exc)}]; [error_msg] keeps the exception whose text
    is sent. *)
Record error_body := mkErrorBody {
  err_ok : bool;
  err_message : string;
  err_error_msg : exn
}.

Definition handler_500 (exc : exn) : error_body :=
  mkErrorBody false "Internal server error" exc.

Inductive http_response :=
| Http200 (body : response)
| Http500 (body : error_body).

(** A [GET /home] request: the route handler runs, and an exception that
    leaves it is turned into a response by the handler for status 500. *)
Definition get_home (w : world) : world * http_response :=
  match home w with
  | (w', inr r) => (w', Http200 r)
  | (w', inl e) => (w', Http500 (handler_500 e))
  end.

(* ===================================================================== *)
(** ** [main.py]: the registry of rclone clients *)
(* ===================================================================== *)

(** The keys of the module-level dictionary [rclone]: the loop of
    [rclone_setup] writes [rclone[id]], where no variable [id] is bound,
    so that the key is the built-in function [id]; a category would be
    looked up by a string. *)
Inductive pykey :=
| KeyBuiltinId
| KeyStr (s : string).

#[global] Instance pykey_eq_dec : EqDecision pykey.
Proof. solve_decision. Defined.

#[global] Instance pykey_countable : Countable pykey :=
  inj_countable'
    (λ k, match k with KeyBuiltinId => None | KeyStr s => Some s end)
    (λ o, match o with None => KeyBuiltinId | Some s => KeyStr s end)
    (λ k, match k with KeyBuiltinId => eq_refl | KeyStr _ => eq_refl end).

(** The loop that ends [rclone_setup],
    [for category in categories: rclone[id] = RCloneAPI(category)].  The
    class [RCloneAPI] of [app.core] is not part of the sources: its
    constructor is a parameter, which returns a client or raises.  What
    precedes the loop in [rclone_setup] (the search for the binary, the
    configuration file, the launch of the daemon) acts on the operating
    system and is left out. *)
Fixpoint rclone_setup_loop {T} (RCloneAPI : document → result T)
    (categories : list document) (rclone : gmap pykey T)
    : gmap pykey T * result () :=
  match categories with
  | [] => (rclone, inr ())
  | category :: rest =>
      match RCloneAPI category with
      | inl e => (rclone, inl e)
      | inr api => rclone_setup_loop RCloneAPI rest (<[KeyBuiltinId := api]> rclone)
      end
  end.

(* ===================================================================== *)
(** ** Sample stores *)
(* ===================================================================== *)

Definition movie (pop rating mtime : Z) : document :=
  {[ "popularity" := VNum pop; "rating" := VNum rating;
     "modified_time" := VNum mtime; "_id" := VNum pop;
     "cast" := VArr [VStr "somebody"] ]}.

Definition episode (mtime : Z) : value :=
  VObj {[ "modified_time" := VNum mtime ]}.

Definition serie (pop rating mtime : Z) (eps : list Z) : document :=
  {[ "popularity" := VNum pop; "rating" := VNum rating;
     "modified_time" := VNum mtime;
     "seasons" := VArr [VObj {[ "episodes" := VArr (episode <$> eps) ]}] ]}.

Definition category (id type : string) : document :=
  {[ "id" := VStr id; "type" := VStr type ]}.

Definition world0 : world :=
  mkWorld {[ 0%nat := category "m" "movies"; 1%nat := category "s" "series" ]}
          [0%nat; 1%nat]
          {[ "m" := Docs [movie 8 1 1; movie 10 3 2; movie 9 2 3];
             "s" := Docs [serie 5 1 1 [1;4]; serie 7 2 2 [9]; serie 6 3 3 [2;3]] ]}
          [].


Definition world_two_series : world :=
  mkWorld {[ 0%nat := category "a" "series"; 1%nat := category "b" "series" ]}
          [0%nat; 1%nat]
          {[ "a" := Docs [serie 1 1 1 [1]]; "b" := Docs [serie 2 2 2 [2]] ]}
          [].

Definition world_anime : world :=
  mkWorld {[ 0%nat := category "x" "anime" ]} [0%nat]
          {[ "x" := Docs [movie 4 4 4] ]} [].


(** Stores whose second category cannot be served: it has no ["id"],
    its collection cannot be reached, or it has no ["type"]. *)
Definition world_no_id : world :=
  mkWorld {[ 0%nat := category "m" "movies"; 1%nat := {[ "type" := VStr "series" ]} ]}
          [0%nat; 1%nat] {[ "m" := Docs [movie 1 1 1] ]} [].

Definition world_unreachable : world :=
  mkWorld {[ 0%nat := category "m" "movies"; 1%nat := category "s" "series" ]}
          [0%nat; 1%nat] {[ "m" := Docs [movie 1 1 1]; "s" := Unreachable ]} [].

Definition world_no_type : world :=
  mkWorld {[ 0%nat := category "m" "movies"; 1%nat := {[ "id" := VStr "m" ]} ]}
          [0%nat; 1%nat] {[ "m" := Docs [movie 1 1 1] ]} [].

(** The value of a field in each document of a list. *)
Definition field_values (f : string) (l : list document) : list (option value) :=
  (λ d : document, d !! f) <$> l.

(* ===================================================================== *)
(** ** Notions used in the statements *)
(* ===================================================================== *)

(** The frame of a run, what no step of [home] changes: the list of
    categories, the collections, and every field of every dictionary
    other than ["metadata"]. *)
Definition frame (w w' : world) : Prop :=
  mongo_categories w' = mongo_categories w ∧
  mongo_metadata w' = mongo_metadata w ∧
  ∀ l k, k ≠ "metadata" → (heap w' !!! l) !! k = (heap w !!! l) !! k.

Definition preserves {A} (m : M A) : Prop := ∀ w, frame w (m w).1.

(** What [home] reads from a category object: the collection it names,
    whether its type is ["movies"], and the slice a ranked query returns
    for it (empty when the query fails). *)
Definition cat_col (w : world) (l : loc) : value :=
  default VNull ((heap w !!! l) !! "id").

Definition is_movies (w : world) (l : loc) : bool :=
  match (heap w !!! l) !! "type" with
  | Some t => py_eq_str t "movies"
  | None => false
  end.

Definition slice (w : world) (field : string) (l : loc) : list document :=
  match query_result w (cat_col w l) (ranked field) with
  | inr ds => ds
  | inl _ => []
  end.

Definition recency_field (movies : bool) : string :=
  if movies then "modified_time" else "seasons.episodes.modified_time".

(** The three queries of one iteration, in the order they are issued. *)
Definition queries_of (w : world) (l : loc) : list (value * pipeline) :=
  [(cat_col w l, ranked "popularity"); (cat_col w l, ranked "rating");
   (cat_col w l, ranked (recency_field (is_movies w l)))].

(** The iteration of a category goes through: the object has its ["id"]
    and ["type"], and its three queries return their slices. *)
Definition served (w : world) (l : loc) : Prop :=
  is_Some ((heap w !!! l) !! "id") ∧
  is_Some ((heap w !!! l) !! "type") ∧
  ∀ f, f ∈ ["popularity"; "rating"; recency_field (is_movies w l)] →
    query_result w (cat_col w l) (ranked f) = inr (slice w f l).

(** The category object after its iteration. *)
Definition with_metadata (w : world) (l : loc) : document :=
  <["metadata" := VArr (VObj <$> slice w "popularity" l)]> (heap w !!! l).

(** The local lists after one successful iteration. *)
Definition step_locals (w : world) (a : locals) (l : loc) : locals :=
  if is_movies w l then
    mkLocals (categories_data a ++ [l])
      (carousel_data a ++ take 3 (slice w "popularity" l))
      (most_popular_movies_data a ++ slice w "popularity" l)
      (most_popular_series_data a)
      (top_rated_series_data a)
      (top_rated_movies_data a ++ slice w "rating" l)
      (newly_added_movies_data a ++ slice w "modified_time" l)
      (newly_added_episodes_data a)
  else
    mkLocals (categories_data a ++ [l])
      (carousel_data a ++ take 3 (slice w "popularity" l))
      (most_popular_movies_data a)
      (most_popular_series_data a ++ slice w "popularity" l)
      (top_rated_series_data a ++ slice w "rating" l)
      (top_rated_movies_data a)
      (newly_added_movies_data a)
      (newly_added_episodes_data a
         ++ slice w "seasons.episodes.modified_time" l).

(** Concatenation of the lists [f] gives for the elements of [ls]. *)
Definition gather {A} (f : loc → list A) (ls : list loc) : list A :=
  mjoin (f <$> ls).

Definition movies_cats (w : world) : list loc :=
  filter (λ l, is_movies w l = true) (mongo_categories w).

Definition other_cats (w : world) : list loc :=
  filter (λ l, is_movies w l = false) (mongo_categories w).

(** [x] may stand before [y] in a list that Python sorted in descending
    order of [field]: both have the field and [x[field] < y[field]] is
    false. *)
Definition desc_by (field : string) (x y : document) : Prop :=
  ∃ kx ky, x !! field = Some kx ∧ y !! field = Some ky ∧ py_lt kx ky = inr false.

(** [x] may stand before [y] in a list that the store sorted in
    descending order of [field]: the key of [x] is not below that of [y]
    in the BSON order. *)
Definition store_desc (field : string) (x y : document) : Prop :=
  bson_lt (sort_key field x) (sort_key field y) = false.

(** The same on decorated elements, as [py_sort_desc] handles them, and
    on the keys alone, as [field_values] lists them. *)
Definition decorated_desc {A} (x y : value * A) : Prop :=
  py_lt x.1 y.1 = inr false.

Definition key_desc (a b : option value) : Prop :=
  ∃ kx ky, a = Some kx ∧ b = Some ky ∧ py_lt kx ky = inr false.

(** The keys [field_values] gives for documents with numeric fields. *)
Definition nums (zs : list Z) : list (option value) :=
  (λ z, Some (VNum z)) <$> zs.

(** The world and the response of the run of [home] on the first sample
    store. *)
Definition world0_after : world := (home world0).1.

Definition response0 : response :=
  match (home world0).2 with
  | inr r => r
  | inl _ => mkResponse false "" (mkSnapshot [] [] [] [] [] [] [] [])
  end.

(** A store on which every step of [home] goes through: each category
    has a type and names a reachable collection, whose documents have a
    numeric popularity and rating, and a numeric modification time when
    the category is one of movies. *)
Definition numeric (f : string) (d : document) : Prop :=
  ∃ n, d !! f = Some (VNum n).

Definition well_formed (w : world) : Prop :=
  ∀ l, l ∈ mongo_categories w →
    ∃ name ty docs,
      (heap w !!! l) !! "id" = Some (VStr name) ∧
      (heap w !!! l) !! "type" = Some ty ∧
      mongo_metadata w !! name = Some (Docs docs) ∧
      Forall (λ d, numeric "popularity" d ∧ numeric "rating" d ∧
                   (ty = VStr "movies" → numeric "modified_time" d)) docs.

(** A document without any of the excluded fields. *)
Definition clean (d : document) : Prop :=
  ∀ k, k ∈ unwanted_keys → d !! k = None.

(** What a run of [home] that returns [r] has done, in terms of the
    world [w] it started from. *)
Record home_run (w w' : world) (r : response) : Prop := mkHomeRun {
  run_frame : frame w w';
  run_issued :
    issued w' = issued w ++ gather (queries_of w) (mongo_categories w);
  run_heap_in :
    ∀ l, l ∈ mongo_categories w → heap w' !!! l = with_metadata w l;
  run_heap_out :
    ∀ l, l ∉ mongo_categories w → heap w' !! l = heap w !! l;
  run_served : ∀ l, l ∈ mongo_categories w → served w l;
  run_ok : ok r = true;
  run_message : message r = "success";
  run_categories :
    categories (data r) = with_metadata w <$> mongo_categories w;
  run_carousel :
    sorted_desc "popularity"
      (gather (λ l, take 3 (slice w "popularity" l)) (mongo_categories w))
    = inr (carousel (data r));
  run_most_popular_movies :
    sorted_desc "popularity" (gather (slice w "popularity") (movies_cats w))
    = inr (most_popular_movies (data r));
  run_most_popular_series :
    sorted_desc "popularity" (gather (slice w "popularity") (other_cats w))
    = inr (most_popular_series (data r));
  run_top_rated_movies :
    sorted_desc "rating" (gather (slice w "rating") (movies_cats w))
    = inr (top_rated_movies (data r));
  run_top_rated_series :
    sorted_desc "rating" (gather (slice w "rating") (other_cats w))
    = inr (top_rated_series (data r));
  run_newly_added_movies :
    sorted_desc "modified_time"
      (gather (slice w "modified_time") (movies_cats w))
    = inr (newly_added_movies (data r));
  run_newly_added_episodes :
    newly_added_episodes (data r)
    = gather (slice w "seasons.episodes.modified_time") (other_cats w)
}.

(** A category on which the body of the loop goes through: it has an
    ["id"] that names a reachable collection, and a ["type"]. *)
Definition queryable (w : world) (l : loc) : Prop :=
  ∃ name ty docs,
    (heap w !!! l) !! "id" = Some (VStr name) ∧
    (heap w !!! l) !! "type" = Some ty ∧
    mongo_metadata w !! name = Some (Docs docs).



(** A computation that, from any world, only appends queries to the log,
    at most [n] of them, each with a ranked pipeline. *)
Definition sends_at_most {A} (n : nat) (m : M A) : Prop :=
  ∀ w, ∃ qs,
    issued (m w).1 = issued w ++ qs ∧ (length qs ≤ n)%nat ∧
    Forall (λ q : value * pipeline, ∃ f, q.2 = ranked f) qs.

(** A stored document behind a listed one: a document of the collection
    of some category of the store, of which the listed one is the
    projection. *)
Definition stored_origin (w : world) (d : document) : Prop :=
  ∃ l name docs d0,
    l ∈ mongo_categories w ∧
    (heap w !!! l) !! "id" = Some (VStr name) ∧
    mongo_metadata w !! name = Some (Docs docs) ∧
    d0 ∈ docs ∧ d = project unwanted_keys d0.

(* ===================================================================== *)
(** ** Reasoning about computations *)
(* ===================================================================== *)

Lemma bind_inr {A B} (m : M A) (k : A → M B) w w' b :
  (m ≫= k) w = (w', inr b) →
  ∃ w1 a, m w = (w1, inr a) ∧ k a w1 = (w', inr b).
Proof.
  unfold mbind, M_bind. destruct (m w) as [w1 [e|a]]; [done|]. eauto.
Qed.

Lemma res_bind_inr {A B} (r : result A) (k : A → result B) b :
  res_bind r k = inr b → ∃ a, r = inr a ∧ k a = inr b.
Proof. destruct r; [done|]. simpl. eauto. Qed.

Lemma lift_inr {A} (r : result A) w w' a :
  lift r w = (w', inr a) → w' = w ∧ r = inr a.
Proof. unfold lift. by intros [= -> ->]. Qed.

(** *** The frame of a run *)

Lemma frame_refl w : frame w w.
Proof. by split_and!. Qed.

Lemma frame_trans w1 w2 w3 : frame w1 w2 → frame w2 w3 → frame w1 w3.
Proof.
  intros (?&?&H1) (?&?&H2). split_and!; [congruence..|].
  intros l k Hk. by rewrite H2, H1.
Qed.

Lemma preserves_ret {A} (a : A) : preserves (mret a).
Proof. intros w. apply frame_refl. Qed.

Lemma preserves_bind {A B} (m : M A) (k : A → M B) :
  preserves m → (∀ a, preserves (k a)) → preserves (m ≫= k).
Proof.
  intros Hm Hk w. unfold mbind, M_bind. specialize (Hm w).
  destruct (m w) as [w1 [e|a]]; [done|].
  eapply frame_trans; [exact Hm|]. apply Hk.
Qed.

Lemma preserves_lift {A} (r : result A) : preserves (lift r).
Proof. intros w. apply frame_refl. Qed.

Lemma preserves_getitem l k : preserves (getitem l k).
Proof. intros w. apply frame_refl. Qed.

Lemma preserves_aggregate col p : preserves (aggregate col p).
Proof. intros w. by split_and!. Qed.

Lemma lookup_total_heap_insert (h : gmap loc document) l l' d :
  <[l := d]> h !!! l' = if decide (l = l') then d else h !!! l'.
Proof.
  case_decide as Hl.
  - subst. by rewrite lookup_total_insert_eq.
  - by rewrite lookup_total_insert_ne.
Qed.

Lemma preserves_setitem_metadata l v : preserves (setitem l "metadata" v).
Proof.
  intros w. split_and!; [done..|]. intros l' k Hk. simpl.
  rewrite lookup_total_heap_insert. case_decide; [|done].
  subst. by rewrite lookup_insert_ne.
Qed.

Lemma preserves_for_each {A S} (l : list A) (body : A → S → M S) acc :
  (∀ x a, preserves (body x a)) → preserves (for_each l body acc).
Proof.
  intros Hb. revert acc. induction l as [|x l IH]; intros acc; simpl.
  - apply preserves_ret.
  - apply preserves_bind; [apply Hb|]. intros a. apply IH.
Qed.

Lemma preserves_loop_body l a : preserves (loop_body l a).
Proof.
  unfold loop_body.
  repeat first
    [ apply preserves_bind; [|intros ?]
    | apply preserves_getitem | apply preserves_aggregate
    | apply preserves_setitem_metadata | apply preserves_ret
    | match goal with |- preserves (if ?b then _ else _) => destruct b end ].
Qed.

Lemma preserves_home : preserves home.
Proof.
  unfold home.
  repeat first
    [ apply preserves_bind; [|intros ?]
    | apply preserves_lift | apply preserves_ret
    | apply preserves_for_each; intros; apply preserves_loop_body
    | (intros w; apply frame_refl) ].
Qed.

(** *** Reading a category through the frame *)

Lemma cat_col_frame w w' l : frame w w' → cat_col w' l = cat_col w l.
Proof. intros (_&_&H). unfold cat_col. by rewrite H. Qed.

Lemma is_movies_frame w w' l : frame w w' → is_movies w' l = is_movies w l.
Proof. intros (_&_&H). unfold is_movies. by rewrite H. Qed.

Lemma slice_frame w w' f l : frame w w' → slice w' f l = slice w f l.
Proof.
  intros Hf. unfold slice. rewrite (cat_col_frame _ _ _ Hf).
  destruct Hf as (_&Hm&_). unfold query_result. by rewrite Hm.
Qed.

Lemma queries_of_frame w w' l : frame w w' → queries_of w' l = queries_of w l.
Proof.
  intros Hf. unfold queries_of.
  by rewrite (cat_col_frame _ _ _ Hf), (is_movies_frame _ _ _ Hf).
Qed.

Lemma step_locals_frame w w' a l :
  frame w w' → step_locals w' a l = step_locals w a l.
Proof.
  intros Hf. unfold step_locals.
  by rewrite (is_movies_frame _ _ _ Hf), !(slice_frame _ _ _ _ Hf).
Qed.

Lemma with_metadata_frame w w' l :
  frame w w' → with_metadata w' l = with_metadata w l.
Proof.
  intros Hf. unfold with_metadata. rewrite (slice_frame _ _ _ _ Hf).
  destruct Hf as (_&_&H). apply map_eq. intros k.
  destruct (decide (k = "metadata")) as [->|Hk].
  - by rewrite !lookup_insert_eq.
  - by rewrite !lookup_insert_ne, H.
Qed.

Lemma served_frame w w' l : frame w w' → served w' l → served w l.
Proof.
  intros Hf (Hid & Hty & Hq). pose proof Hf as (_&Hm&H).
  rewrite !H in Hid, Hty by done. split_and!; [done..|].
  intros f Hin. rewrite (is_movies_frame _ _ _ Hf) in Hq.
  specialize (Hq f Hin).
  rewrite (cat_col_frame _ _ _ Hf), (slice_frame _ _ _ _ Hf) in Hq.
  unfold query_result in *. by rewrite <- Hm.
Qed.

Lemma foldl_step_locals_frame w w' a ls :
  frame w w' → foldl (step_locals w') a ls = foldl (step_locals w) a ls.
Proof.
  intros Hf. revert a. induction ls as [|l ls IH]; intros a; simpl; [done|].
  by rewrite IH, (step_locals_frame _ _ _ _ Hf).
Qed.

Lemma gather_nil {A} (f : loc → list A) : gather f [] = [].
Proof. done. Qed.

Lemma gather_cons {A} (f : loc → list A) x ls :
  gather f (x :: ls) = f x ++ gather f ls.
Proof. done. Qed.

Lemma gather_app {A} (f : loc → list A) ls1 ls2 :
  gather f (ls1 ++ ls2) = gather f ls1 ++ gather f ls2.
Proof.
  induction ls1 as [|x ls1 IH]; [done|].
  by rewrite <- app_comm_cons, !gather_cons, IH, app_assoc.
Qed.

Lemma elem_of_gather {A} (f : loc → list A) ls (x : A) :
  x ∈ gather f ls ↔ ∃ l, l ∈ ls ∧ x ∈ f l.
Proof.
  unfold gather. rewrite list_elem_of_join. split.
  - intros (ys & Hx & (l & -> & Hl)%list_elem_of_fmap). eauto.
  - intros (l & Hl & Hx). exists (f l). split; [done|].
    apply list_elem_of_fmap. eauto.
Qed.

(** *** One iteration *)

Lemma py_getitem_inr d k v : py_getitem d k = inr v → d !! k = Some v.
Proof. unfold py_getitem. by destruct (d !! k); intros [= ->]. Qed.

Lemma loop_body_inr l a w w' a' :
  loop_body l a w = (w', inr a') →
  a' = step_locals w a l ∧
  heap w' = <[l := with_metadata w l]> (heap w) ∧
  issued w' = issued w ++ queries_of w l ∧
  served w l.
Proof.
  intros H. unfold loop_body in H.
  apply bind_inr in H as (w1 & col & Hid & H).
  apply bind_inr in H as (w2 & pop & Hpop & H).
  apply bind_inr in H as (w3 & [] & Hset & H).
  apply bind_inr in H as (w4 & rat & Hrat & H).
  apply bind_inr in H as (w5 & ty & Hty & H).
  unfold getitem in Hid. injection Hid as <- Hid%py_getitem_inr.
  unfold aggregate in Hpop. injection Hpop as <- Hpop.
  unfold setitem in Hset. injection Hset as <-. simpl in *.
  unfold aggregate in Hrat. injection Hrat as <- Hrat. simpl in *.
  unfold getitem in Hty. injection Hty as <- Hty%py_getitem_inr. simpl in *.
  rewrite lookup_total_insert_eq, lookup_insert_ne in Hty by done.
  assert (Hcol : cat_col w l = col) by (unfold cat_col; by rewrite Hid).
  assert (Hmov : is_movies w l = py_eq_str ty "movies")
    by (unfold is_movies; by rewrite Hty).
  assert (Hslice : ∀ f ds, query_result w col (ranked f) = inr ds →
            slice w f l = ds).
  { intros f ds Hq. unfold slice. by rewrite Hcol, Hq. }
  assert (Hq : ∀ u v p, mongo_metadata u = mongo_metadata v →
            query_result u col p = query_result v col p).
  { intros u v p E. unfold query_result. by rewrite E. }
  rewrite (Hq _ w) in Hrat by done.
  apply Hslice in Hpop as Hpop', Hrat as Hrat'.
  unfold served, step_locals, queries_of, with_metadata.
  rewrite Hid, Hty, Hmov, Hcol, Hpop', Hrat'.
  destruct (py_eq_str ty "movies");
    apply bind_inr in H as (w6 & rec & Hrec & H);
    unfold aggregate in Hrec; injection Hrec as <- Hrec; simpl in *;
    rewrite (Hq _ w) in Hrec by done; apply Hslice in Hrec as Hrec';
    rewrite Hrec'; injection H as <- <-; simpl; rewrite <- !app_assoc;
    (split_and!; [done..|]);
    intros f Hf; repeat (apply elem_of_cons in Hf as [->|Hf]); try congruence;
    by apply elem_of_nil in Hf.
Qed.

(** *** The whole loop *)

Lemma gather_ext {A} (f g : loc → list A) ls :
  (∀ l, f l = g l) → gather f ls = gather g ls.
Proof.
  intros E. unfold gather. induction ls as [|x ls IH]; csimpl; [done|].
  by rewrite E, IH.
Qed.

Lemma for_each_loop_inr ls a w w' a' :
  for_each ls loop_body a w = (w', inr a') →
  a' = foldl (step_locals w) a ls ∧
  issued w' = issued w ++ gather (queries_of w) ls ∧
  (∀ l, l ∈ ls → heap w' !!! l = with_metadata w l) ∧
  (∀ l, l ∉ ls → heap w' !! l = heap w !! l) ∧
  (∀ l, l ∈ ls → served w l).
Proof.
  revert a w. induction ls as [|x ls IH]; intros a w H; simpl in H.
  - injection H as <- <-. rewrite gather_nil, app_nil_r.
    split_and!; [done..| |done|]; by intros l ?%elem_of_nil.
  - apply bind_inr in H as (w1 & a1 & Hx & H).
    assert (Hf : frame w w1).
    { pose proof (preserves_loop_body x a w) as Hp. by rewrite Hx in Hp. }
    apply loop_body_inr in Hx as (-> & Hh & Hi & Hsx).
    apply IH in H as (-> & Hi' & Hin & Hout & Hs).
    split_and!.
    + simpl. by rewrite (foldl_step_locals_frame _ _ _ _ Hf).
    + rewrite Hi', Hi, gather_cons, <- app_assoc. do 2 f_equal.
      apply gather_ext. intros l. by apply queries_of_frame.
    + intros l Hl. destruct (decide (l ∈ ls)) as [Hls|Hls].
      * rewrite (Hin _ Hls). by apply with_metadata_frame.
      * apply elem_of_cons in Hl as [->|?]; [|done].
        unfold lookup_total, map_lookup_total.
        rewrite (Hout _ Hls), Hh. by rewrite lookup_insert_eq.
    + intros l Hl. apply not_elem_of_cons in Hl as [Hne Hls].
      rewrite (Hout _ Hls), Hh. by rewrite lookup_insert_ne.
    + intros l [->|Hl]%elem_of_cons; [done|].
      eapply served_frame; [exact Hf|]. by apply Hs.
Qed.

Lemma foldl_step_locals_fields w ls a :
  let a' := foldl (step_locals w) a ls in
  categories_data a' = categories_data a ++ ls ∧
  carousel_data a' =
    carousel_data a ++ gather (λ l, take 3 (slice w "popularity" l)) ls ∧
  most_popular_movies_data a' =
    most_popular_movies_data a
      ++ gather (slice w "popularity") (filter (λ l, is_movies w l = true) ls) ∧
  most_popular_series_data a' =
    most_popular_series_data a
      ++ gather (slice w "popularity") (filter (λ l, is_movies w l = false) ls) ∧
  top_rated_movies_data a' =
    top_rated_movies_data a
      ++ gather (slice w "rating") (filter (λ l, is_movies w l = true) ls) ∧
  top_rated_series_data a' =
    top_rated_series_data a
      ++ gather (slice w "rating") (filter (λ l, is_movies w l = false) ls) ∧
  newly_added_movies_data a' =
    newly_added_movies_data a
      ++ gather (slice w "modified_time")
           (filter (λ l, is_movies w l = true) ls) ∧
  newly_added_episodes_data a' =
    newly_added_episodes_data a
      ++ gather (slice w "seasons.episodes.modified_time")
           (filter (λ l, is_movies w l = false) ls).
Proof.
  revert a. induction ls as [|x ls IH]; intros a; simpl.
  - rewrite !filter_nil, !gather_nil. by rewrite !app_nil_r.
  - destruct (IH (step_locals w a x)) as (-> & -> & -> & -> & -> & -> & -> & ->).
    unfold step_locals. rewrite gather_cons.
    destruct (is_movies w x) eqn:Hx; simpl.
    + rewrite !(filter_cons_True (λ l, is_movies w l = true)),
        !(filter_cons_False (λ l, is_movies w l = false)) by (by rewrite ?Hx).
      rewrite !gather_cons. by rewrite <- !app_assoc.
    + rewrite !(filter_cons_True (λ l, is_movies w l = false)),
        !(filter_cons_False (λ l, is_movies w l = true)) by (by rewrite ?Hx).
      rewrite !gather_cons. by rewrite <- !app_assoc.
Qed.

(* ===================================================================== *)
(** ** Orders *)
(* ===================================================================== *)

Lemma string_compare_lt_trans a b c :
  String.compare a b = Lt → String.compare b c = Lt → String.compare a c = Lt.
Proof.
  revert b c. induction a as [|x a IH]; intros [|y b] [|z c]; simpl; try done.
  destruct (Ascii.compare x y) eqn:Hxy; [| |done].
  - apply Ascii.compare_eq_iff in Hxy as ->.
    destruct (Ascii.compare y z); [|done..]. apply IH.
  - intros _. destruct (Ascii.compare y z) eqn:Hyz; [| |done].
    + apply Ascii.compare_eq_iff in Hyz as ->. by rewrite Hxy.
    + intros _. unfold Ascii.compare in *.
      rewrite N.compare_lt_iff in Hxy, Hyz.
      assert (H : (N_of_ascii x < N_of_ascii z)%N) by lia.
      apply N.compare_lt_iff in H. by rewrite H.
Qed.

Lemma string_ltb_asym a b : String.ltb a b = true → String.ltb b a = false.
Proof.
  unfold String.ltb. rewrite (String.compare_antisym b a).
  by destruct (String.compare a b).
Qed.

Lemma string_ltb_false_trans a b c :
  String.ltb a b = false → String.ltb b c = false → String.ltb a c = false.
Proof.
  unfold String.ltb. intros Hab Hbc.
  destruct (String.compare a c) eqn:Hac; try done.
  destruct (String.compare a b) eqn:E; try done.
  - apply String.compare_eq_iff in E as ->. by rewrite Hac in Hbc.
  - rewrite String.compare_antisym in E.
    destruct (String.compare b a) eqn:Hba; try done.
    by rewrite (string_compare_lt_trans _ _ _ Hba Hac) in Hbc.
Qed.

Lemma py_lt_asym a b : py_lt a b = inr true → py_lt b a = inr false.
Proof.
  destruct a, b; simpl; try done; intros [= H]; f_equal.
  - lia.
  - by apply string_ltb_asym.
Qed.

Lemma bson_lt_asym a b : bson_lt a b = true → bson_lt b a = false.
Proof.
  destruct a, b; simpl; try done; try lia. apply string_ltb_asym.
Qed.

Lemma bson_lt_false_trans a b c :
  bson_lt a b = false → bson_lt b c = false → bson_lt a c = false.
Proof.
  destruct a, b, c; simpl; try done; try lia. apply string_ltb_false_trans.
Qed.

#[global] Instance store_desc_trans f : Transitive (store_desc f).
Proof. intros x y z. apply bson_lt_false_trans. Qed.

(* ===================================================================== *)
(** ** The sort of the store *)
(* ===================================================================== *)

Lemma insert_desc_perm f x l : insert_desc f x l ≡ₚ x :: l.
Proof.
  induction l as [|y l IH]; simpl; [done|].
  destruct (bson_lt _ _); [|done]. rewrite IH. apply Permutation_swap.
Qed.

Lemma mongo_sort_desc_perm f l : mongo_sort_desc f l ≡ₚ l.
Proof.
  induction l as [|x l IH]; simpl; [done|].
  fold (mongo_sort_desc f l). by rewrite insert_desc_perm, IH.
Qed.

Lemma insert_desc_hd f x y l :
  store_desc f y x → HdRel (store_desc f) y l →
  HdRel (store_desc f) y (insert_desc f x l).
Proof.
  intros Hyx Hl. destruct l as [|z l]; simpl; [by constructor|].
  apply HdRel_inv in Hl. destruct (bson_lt _ _); by constructor.
Qed.

Lemma insert_desc_sorted f x l :
  Sorted (store_desc f) l → Sorted (store_desc f) (insert_desc f x l).
Proof.
  induction 1 as [|y l Hl IH Hy]; simpl; [by repeat constructor|].
  destruct (bson_lt (sort_key f x) (sort_key f y)) eqn:E.
  - constructor; [done|]. apply insert_desc_hd; [|done].
    by apply bson_lt_asym.
  - constructor; [by constructor|]. by constructor.
Qed.

Lemma mongo_sort_desc_sorted f l : Sorted (store_desc f) (mongo_sort_desc f l).
Proof.
  induction l as [|x l IH]; simpl; [constructor|].
  by apply insert_desc_sorted.
Qed.

(** The key of an undotted field only depends on that field. *)
Lemma sort_key_popularity d d' :
  d' !! "popularity" = d !! "popularity" →
  sort_key "popularity" d' = sort_key "popularity" d.
Proof.
  intros E. unfold sort_key.
  change (split_path "popularity") with ["popularity"]. simpl. by rewrite E.
Qed.

Lemma sort_key_popularity_num d n :
  d !! "popularity" = Some (VNum n) → sort_key "popularity" d = VNum n.
Proof.
  intros E. unfold sort_key.
  change (split_path "popularity") with ["popularity"]. simpl. by rewrite E.
Qed.

Lemma project_lookup ex d k :
  project ex d !! k = if decide (k ∈ ex) then None else d !! k.
Proof.
  unfold project. case_decide.
  - by apply lookup_foldr_delete.
  - by apply lookup_foldr_delete_not_elem_of.
Qed.

Lemma project_clean d : clean (project unwanted_keys d).
Proof. intros k Hk. rewrite project_lookup. by case_decide. Qed.

Lemma run_pipeline_ranked f docs :
  run_pipeline (ranked f) docs =
  project unwanted_keys <$> take data_cap_limit (mongo_sort_desc f docs).
Proof. done. Qed.

Lemma slice_clean w f l : Forall clean (slice w f l).
Proof.
  unfold slice, query_result.
  destruct (cat_col w l); try by constructor.
  destruct (_ !! _) as [[docs|]|]; try by constructor.
  rewrite run_pipeline_ranked, Forall_fmap. apply Forall_forall.
  intros d _. apply project_clean.
Qed.

Lemma gather_Forall {A} (P : A → Prop) (f : loc → list A) ls :
  (∀ l, Forall P (f l)) → Forall P (gather f ls).
Proof.
  intros H. apply Forall_forall. intros x (l & _ & Hx)%elem_of_gather.
  specialize (H l). rewrite Forall_forall in H. by apply H.
Qed.

(* ===================================================================== *)
(** ** [sorted] *)
(* ===================================================================== *)

Section py_sort.
Context {A : Type}.
Implicit Types (x y : value * A) (l r : list (value * A)).
Local Abbreviation R := (@decorated_desc A).

Lemma py_insert_desc_perm x l r : py_insert_desc x l = inr r → r ≡ₚ x :: l.
Proof.
  revert r. induction l as [|y l IH]; intros r; simpl.
  - by intros [= <-].
  - intros (b & _ & H)%res_bind_inr. destruct b.
    + apply res_bind_inr in H as (r' & Hr' & [= <-]).
      rewrite (IH _ Hr'). apply Permutation_swap.
    + by injection H as <-.
Qed.

Lemma py_sort_desc_perm l r : py_sort_desc l = inr r → r ≡ₚ l.
Proof.
  revert r. induction l as [|x l IH]; intros r; simpl.
  - by intros [= <-].
  - intros (r' & Hr' & H)%res_bind_inr.
    by rewrite (py_insert_desc_perm _ _ _ H), (IH _ Hr').
Qed.

Lemma py_insert_desc_hd x y l r :
  R y x → HdRel R y l → py_insert_desc x l = inr r → HdRel R y r.
Proof.
  intros Hyx Hl. destruct l as [|z l]; simpl.
  - intros [= <-]. by constructor.
  - apply HdRel_inv in Hl. intros (b & _ & H)%res_bind_inr. destruct b.
    + apply res_bind_inr in H as (r' & _ & [= <-]). by constructor.
    + injection H as <-. by constructor.
Qed.

Lemma py_insert_desc_sorted x l r :
  Sorted R l → py_insert_desc x l = inr r → Sorted R r.
Proof.
  intros Hl. revert r. induction Hl as [|y l Hl IH Hy]; intros r; simpl.
  - intros [= <-]. by repeat constructor.
  - intros (b & Hb & H)%res_bind_inr. destruct b.
    + apply res_bind_inr in H as (r' & Hr' & [= <-]).
      constructor; [by apply IH|].
      eapply py_insert_desc_hd; [|done..]. by apply py_lt_asym.
    + injection H as <-. constructor; [by constructor|]. by constructor.
Qed.

Lemma py_sort_desc_sorted l r : py_sort_desc l = inr r → Sorted R r.
Proof.
  revert r. induction l as [|x l IH]; intros r; simpl.
  - intros [= <-]. constructor.
  - intros (r' & Hr' & H)%res_bind_inr.
    eapply py_insert_desc_sorted; [|done]. by apply IH.
Qed.
End py_sort.

Lemma res_mapM_inr {A B} (f : A → result B) l ys :
  res_mapM f l = inr ys → Forall2 (λ x y, f x = inr y) l ys.
Proof.
  revert ys. induction l as [|x l IH]; intros ys; simpl.
  - intros [= <-]. constructor.
  - intros (y & Hy & (ys' & Hys & [= <-])%res_bind_inr)%res_bind_inr.
    constructor; auto.
Qed.

Lemma zip_keys_Forall (f : string) (l : list document) keys :
  Forall2 (λ d k, py_getitem d f = inr k) l keys →
  Forall (λ p : value * document, p.2 !! f = Some p.1) (zip keys l).
Proof.
  induction 1 as [|d k l keys H%py_getitem_inr]; simpl; constructor; auto.
Qed.

Lemma Sorted_and_Forall {A} (R : relation A) (P : A → Prop) l :
  Sorted R l → Forall P l → Sorted (λ x y, P x ∧ P y ∧ R x y) l.
Proof.
  induction 1 as [|x l Hl IH Hx]; intros HP; [constructor|].
  apply Forall_cons in HP as [Px Pl]. constructor; [auto|].
  destruct Hx as [|y l' Hxy]; constructor.
  apply Forall_cons in Pl as [Py _]. done.
Qed.

Lemma sorted_desc_perm f l r : sorted_desc f l = inr r → r ≡ₚ l.
Proof.
  unfold sorted_desc.
  intros (keys & Hk%res_mapM_inr & (r' & Hr' & [= <-])%res_bind_inr)%res_bind_inr.
  rewrite (py_sort_desc_perm _ _ Hr'). rewrite snd_zip; [done|].
  apply Forall2_length in Hk. lia.
Qed.

Lemma sorted_desc_sorted f l r : sorted_desc f l = inr r → Sorted (desc_by f) r.
Proof.
  unfold sorted_desc.
  intros (keys & Hk%res_mapM_inr & (r' & Hr' & [= <-])%res_bind_inr)%res_bind_inr.
  apply zip_keys_Forall in Hk.
  rewrite <- (py_sort_desc_perm _ _ Hr') in Hk.
  apply py_sort_desc_sorted in Hr'.
  eapply Sorted_fmap; [|exact (Sorted_and_Forall _ _ _ Hr' Hk)].
  intros [kx x] [ky y] (Hx & Hy & Hlt). simpl in *. by exists kx, ky.
Qed.

(* ===================================================================== *)
(** ** A run of [home] that returns *)
(* ===================================================================== *)

Lemma home_inr w w' r : home w = (w', inr r) → home_run w w' r.
Proof.
  intros H.
  assert (Hf : frame w w').
  { pose proof (preserves_home w) as Hp. by rewrite H in Hp. }
  unfold home in H.
  apply bind_inr in H as (w0 & cats & Hcats & H).
  apply bind_inr in H as (w1 & a & Hloop & H).
  apply bind_inr in H as (? & car & [-> Hcar]%lift_inr & H).
  apply bind_inr in H as (? & mpm & [-> Hmpm]%lift_inr & H).
  apply bind_inr in H as (? & mps & [-> Hmps]%lift_inr & H).
  apply bind_inr in H as (? & trm & [-> Htrm]%lift_inr & H).
  apply bind_inr in H as (? & trs & [-> Htrs]%lift_inr & H).
  apply bind_inr in H as (? & nam & [-> Hnam]%lift_inr & H).
  apply bind_inr in H as (w2 & cd & Hcd & H).
  unfold mongo_categories_get in Hcats. injection Hcats as <- <-.
  apply for_each_loop_inr in Hloop as (-> & Hi & Hin & Hout & Hs).
  destruct (foldl_step_locals_fields w (mongo_categories w) no_locals)
    as (Ecd & Ecar & Empm & Emps & Etrm & Etrs & Enam & Enae).
  simpl in Ecd, Ecar, Empm, Emps, Etrm, Etrs, Enam, Enae.
  rewrite Ecar in Hcar. rewrite Empm in Hmpm. rewrite Emps in Hmps.
  rewrite Etrm in Htrm. rewrite Etrs in Htrs. rewrite Enam in Hnam.
  unfold deref_all in Hcd. injection Hcd as <- <-.
  injection H as <- <-. rewrite Ecd, Enae.
  split; simpl; try done.
  apply list_fmap_ext. intros i l Hl. apply Hin.
  by eapply list_elem_of_lookup_2.
Qed.

(* ===================================================================== *)
(** ** Properties of the homepage *)
(* ===================================================================== *)

Lemma Sorted_lookup_succ {A} (R : relation A) l i x y :
  Sorted R l → l !! i = Some x → l !! S i = Some y → R x y.
Proof.
  intros Hl. revert i. induction Hl as [|z l Hl IH Hz]; intros i; [done|].
  destruct i as [|i]; simpl.
  - intros [= ->] Hy. destruct Hz as [|z' l' Hz]; [done|].
    simpl in Hy. by injection Hy as <-.
  - apply IH.
Qed.

Lemma Sorted_take {A} (R : relation A) n l : Sorted R l → Sorted R (take n l).
Proof.
  intros Hl. revert n. induction Hl as [|x l Hl IH Hx]; intros [|n]; simpl;
    try constructor; [apply IH|].
  destruct Hx as [|y l' Hxy]; destruct n; simpl; by constructor.
Qed.

Lemma project_popularity d :
  project unwanted_keys d !! "popularity" = d !! "popularity".
Proof.
  rewrite project_lookup. case_decide as H; [|done].
  repeat (apply elem_of_cons in H as [H|H]; [done|]). by apply elem_of_nil in H.
Qed.

(** C3.  The popularity query of a category returns the documents of its
    collection sorted by the store in descending order of popularity,
    cut after the sort to the first [data_cap_limit] of them, and then
    projected: the slice has at most [data_cap_limit] elements, it is in
    non-increasing order of popularity, and no document that the limit
    dropped ranks above a document that it kept. *)
Theorem popularity_slice_capped_and_sorted w col s :
  query_result w col (ranked "popularity") = inr s →
  ∃ name docs,
    col = VStr name ∧ mongo_metadata w !! name = Some (Docs docs) ∧
    let ordered := mongo_sort_desc "popularity" docs in
    ordered ≡ₚ docs ∧
    Sorted (store_desc "popularity") ordered ∧
    s = project unwanted_keys <$> take data_cap_limit ordered ∧
    (length s ≤ data_cap_limit)%nat ∧
    Sorted (store_desc "popularity") s ∧
    (∀ i x y p q, s !! i = Some x → s !! S i = Some y →
       x !! "popularity" = Some (VNum p) → y !! "popularity" = Some (VNum q) →
       q ≤ p) ∧
    (∀ x y, x ∈ take data_cap_limit ordered →
       y ∈ drop data_cap_limit ordered → store_desc "popularity" x y).
Proof.
  unfold query_result. intros H.
  destruct col as [| |name| |]; try done.
  destruct (mongo_metadata w !! name) as [[docs|]|] eqn:Hc; try done.
  injection H as <-. exists name, docs. split_and!; try done.
  - apply mongo_sort_desc_perm.
  - apply mongo_sort_desc_sorted.
  - rewrite length_fmap, length_take. lia.
  - eapply Sorted_fmap; [|apply Sorted_take, mongo_sort_desc_sorted].
    intros x y. unfold store_desc.
    by rewrite !(sort_key_popularity _ (project _ _)) by apply project_popularity.
  - intros i x y p q Hx Hy Hp Hq.
    assert (Hs : Sorted (store_desc "popularity")
                   (run_pipeline (ranked "popularity") docs)).
    { rewrite run_pipeline_ranked.
      eapply Sorted_fmap; [|apply Sorted_take, mongo_sort_desc_sorted].
      intros x' y'. unfold store_desc.
      by rewrite !(sort_key_popularity _ (project _ _))
        by apply project_popularity. }
    pose proof (Sorted_lookup_succ _ _ _ _ _ Hs Hx Hy) as Hxy.
    unfold store_desc in Hxy.
    rewrite (sort_key_popularity_num _ _ Hp), (sort_key_popularity_num _ _ Hq)
      in Hxy.
    simpl in Hxy. lia.
  - intros x y Hx Hy.
    eapply (StronglySorted_app_1_elem_of (store_desc "popularity")); [|done..].
    rewrite take_drop. apply Sorted_StronglySorted; [apply _|].
    apply mongo_sort_desc_sorted.
Qed.

Lemma popularity_slice_capped_and_sorted_witness :
  ∃ name docs,
    VStr "m" = VStr name ∧ mongo_metadata world0 !! name = Some (Docs docs) ∧
    let ordered := mongo_sort_desc "popularity" docs in
    ordered ≡ₚ docs ∧
    Sorted (store_desc "popularity") ordered ∧
    project unwanted_keys <$> [movie 10 3 2; movie 9 2 3; movie 8 1 1]
      = project unwanted_keys <$> take data_cap_limit ordered ∧
    (length (project unwanted_keys <$> [movie 10 3 2; movie 9 2 3; movie 8 1 1])
       ≤ data_cap_limit)%nat ∧
    Sorted (store_desc "popularity")
      (project unwanted_keys <$> [movie 10 3 2; movie 9 2 3; movie 8 1 1]) ∧
    (∀ i x y p q,
       (project unwanted_keys <$> [movie 10 3 2; movie 9 2 3; movie 8 1 1]) !! i
         = Some x →
       (project unwanted_keys <$> [movie 10 3 2; movie 9 2 3; movie 8 1 1]) !! S i
         = Some y →
       x !! "popularity" = Some (VNum p) → y !! "popularity" = Some (VNum q) →
       q ≤ p) ∧
    (∀ x y, x ∈ take data_cap_limit ordered →
       y ∈ drop data_cap_limit ordered → store_desc "popularity" x y).
Proof.
  apply (popularity_slice_capped_and_sorted world0 (VStr "m")).
  vm_compute. reflexivity.
Defined.

(** C8.  With no category known, [home] answers [ok = True] with the
    message ["success"] and a snapshot whose eight sections are all
    empty; it sends no query and changes nothing. *)
Theorem home_without_categories w :
  mongo_categories w = [] →
  home w = (w, inr (mkResponse true "success"
                      (mkSnapshot [] [] [] [] [] [] [] []))).
Proof.
  intros H. unfold home, mongo_categories_get, mbind, M_bind. by rewrite H.
Qed.

Lemma home_without_categories_witness :
  home (mkWorld ∅ [] {[ "m" := Docs [movie 1 1 1] ]} [])
  = (mkWorld ∅ [] {[ "m" := Docs [movie 1 1 1] ]} [],
     inr (mkResponse true "success" (mkSnapshot [] [] [] [] [] [] [] []))).
Proof. apply home_without_categories. reflexivity. Defined.

(** C5.  Each query that a run of [home] sends, whatever its ranking and
    its category, ends with the projection on the one set
    [unwanted_keys], and no document of any section of the response, nor
    of the ["metadata"] list attached to a category, has a field of that
    set. *)
Theorem excluded_fields_never_in_output w w' r :
  home w = (w', inr r) →
  (∀ q, q ∈ drop (length (issued w)) (issued w') →
     last q.2 = Some (Project unwanted_keys)) ∧
  Forall clean (carousel (data r)) ∧
  Forall clean (most_popular_movies (data r)) ∧
  Forall clean (most_popular_series (data r)) ∧
  Forall clean (top_rated_movies (data r)) ∧
  Forall clean (top_rated_series (data r)) ∧
  Forall clean (newly_added_movies (data r)) ∧
  Forall clean (newly_added_episodes (data r)) ∧
  Forall (λ c : document, ∃ ds,
            c !! "metadata" = Some (VArr (VObj <$> ds)) ∧ Forall clean ds)
         (categories (data r)).
Proof.
  intros H%home_inr.
  assert (Hsorted : ∀ f g ls out,
            sorted_desc f (gather (slice w g) ls) = inr out → Forall clean out).
  { intros f g ls out ->%sorted_desc_perm.
    apply gather_Forall. intros l. apply slice_clean. }
  split_and!.
  - intros q. rewrite (run_issued _ _ _ H), drop_app_length.
    intros (l & _ & Hq)%elem_of_gather. unfold queries_of in Hq.
    repeat (apply elem_of_cons in Hq as [->|Hq]); try done.
    by apply elem_of_nil in Hq.
  - rewrite (sorted_desc_perm _ _ _ (run_carousel _ _ _ H)).
    apply gather_Forall. intros l. apply Forall_take, slice_clean.
  - exact (Hsorted _ _ _ _ (run_most_popular_movies _ _ _ H)).
  - exact (Hsorted _ _ _ _ (run_most_popular_series _ _ _ H)).
  - exact (Hsorted _ _ _ _ (run_top_rated_movies _ _ _ H)).
  - exact (Hsorted _ _ _ _ (run_top_rated_series _ _ _ H)).
  - exact (Hsorted _ _ _ _ (run_newly_added_movies _ _ _ H)).
  - rewrite (run_newly_added_episodes _ _ _ H).
    apply gather_Forall. intros l. apply slice_clean.
  - rewrite (run_categories _ _ _ H), Forall_fmap. apply Forall_forall.
    intros l _. exists (slice w "popularity" l). split; [|apply slice_clean].
    unfold with_metadata. simpl. by rewrite lookup_insert_eq.
Qed.

Lemma excluded_fields_never_in_output_witness :
  Forall clean (carousel (data response0)) ∧
  Forall clean (newly_added_episodes (data response0)).
Proof.
  destruct (excluded_fields_never_in_output world0 world0_after response0)
    as (_ & Hc & _ & _ & _ & _ & _ & He & _).
  - vm_compute. reflexivity.
  - exact (conj Hc He).
Defined.

(** *** Sorted lists of keys *)

#[global] Instance key_desc_trans : Transitive key_desc.
Proof.
  intros a b c (ka & kb & -> & -> & Hab) (kb' & kc & [= <-] & -> & Hbc).
  exists ka, kc. split_and!; [done..|].
  destruct ka, kb, kc; simpl in *; try done; f_equal.
  - injection Hab as Hab. injection Hbc as Hbc. lia.
  - injection Hab as Hab. injection Hbc as Hbc.
    by eapply string_ltb_false_trans.
Qed.








(** *** The type of a category *)

Lemma py_eq_str_true v s : py_eq_str v s = true ↔ v = VStr s.
Proof.
  destruct v; simpl; try by split.
  rewrite String.eqb_eq. split; congruence.
Qed.

Lemma is_movies_true w l :
  is_movies w l = true ↔ (heap w !!! l) !! "type" = Some (VStr "movies").
Proof.
  unfold is_movies. destruct (_ !! "type") as [t|]; [|by split].
  rewrite py_eq_str_true. split; congruence.
Qed.

Lemma is_movies_false w l ty :
  (heap w !!! l) !! "type" = Some ty →
  is_movies w l = false ↔ ty ≠ VStr "movies".
Proof.
  intros Hty. rewrite <- not_true_iff_false, is_movies_true, Hty.
  split; intros H ?; apply H; congruence.
Qed.

Lemma sorted_desc_gather_elem f g w ls out d :
  sorted_desc f (gather (slice w g) ls) = inr out →
  d ∈ out ↔ ∃ l, l ∈ ls ∧ d ∈ slice w g l.
Proof. intros ->%sorted_desc_perm. apply elem_of_gather. Qed.

(** C4, as the code has it.  The documents of [most_popular_movies] come
    from the popularity slices of the categories whose type is
    ["movies"], and those of [most_popular_series] from the popularity
    slices of the categories of any other type, ["series"] or not; they
    all come from categories of type ["series"] when no category has a
    third type. *)
Theorem most_popular_sections_by_type w w' r :
  home w = (w', inr r) →
  (∀ d, d ∈ most_popular_movies (data r) →
     ∃ l, l ∈ mongo_categories w ∧
       (heap w !!! l) !! "type" = Some (VStr "movies") ∧
       d ∈ slice w "popularity" l) ∧
  (∀ d, d ∈ most_popular_series (data r) →
     ∃ l ty, l ∈ mongo_categories w ∧
       (heap w !!! l) !! "type" = Some ty ∧ ty ≠ VStr "movies" ∧
       d ∈ slice w "popularity" l) ∧
  ((∀ l, l ∈ mongo_categories w →
      (heap w !!! l) !! "type" = Some (VStr "movies") ∨
      (heap w !!! l) !! "type" = Some (VStr "series")) →
   ∀ d, d ∈ most_popular_series (data r) →
     ∃ l, l ∈ mongo_categories w ∧
       (heap w !!! l) !! "type" = Some (VStr "series") ∧
       d ∈ slice w "popularity" l).
Proof.
  intros H%home_inr.
  assert (Hseries : ∀ d, d ∈ most_popular_series (data r) →
    ∃ l ty, l ∈ mongo_categories w ∧
      (heap w !!! l) !! "type" = Some ty ∧ ty ≠ VStr "movies" ∧
      d ∈ slice w "popularity" l).
  { intros d Hd.
    apply (sorted_desc_gather_elem _ _ _ _ _ _
             (run_most_popular_series _ _ _ H)) in Hd
      as (l & [Hm Hl]%list_elem_of_filter & Hd).
    destruct (run_served _ _ _ H l Hl) as (_ & [ty Hty] & _).
    exists l, ty. by rewrite <- (is_movies_false _ _ _ Hty). }
  split_and!; [|done|].
  - intros d Hd.
    apply (sorted_desc_gather_elem _ _ _ _ _ _
             (run_most_popular_movies _ _ _ H)) in Hd
      as (l & [Hm Hl]%list_elem_of_filter & Hd).
    exists l. by rewrite <- is_movies_true.
  - intros Htwo d (l & ty & Hl & Hty & Hne & Hd)%Hseries.
    exists l. split_and!; [done| |done].
    destruct (Htwo l Hl) as [E|E]; [|done]. congruence.
Qed.

Lemma most_popular_sections_by_type_witness :
  (∀ d, d ∈ most_popular_movies (data response0) →
     ∃ l, l ∈ mongo_categories world0 ∧
       (heap world0 !!! l) !! "type" = Some (VStr "movies") ∧
       d ∈ slice world0 "popularity" l) ∧
  (∀ d, d ∈ most_popular_series (data response0) →
     ∃ l ty, l ∈ mongo_categories world0 ∧
       (heap world0 !!! l) !! "type" = Some ty ∧ ty ≠ VStr "movies" ∧
       d ∈ slice world0 "popularity" l) ∧
  ((∀ l, l ∈ mongo_categories world0 →
      (heap world0 !!! l) !! "type" = Some (VStr "movies") ∨
      (heap world0 !!! l) !! "type" = Some (VStr "series")) →
   ∀ d, d ∈ most_popular_series (data response0) →
     ∃ l, l ∈ mongo_categories world0 ∧
       (heap world0 !!! l) !! "type" = Some (VStr "series") ∧
       d ∈ slice world0 "popularity" l).
Proof.
  apply (most_popular_sections_by_type world0 world0_after response0).
  vm_compute. reflexivity.
Defined.

(** C4, as stated, fails: the one category of [world_anime] has the type
    ["anime"], no category has the type ["series"], and the document of
    that category is in [most_popular_series]. *)
Lemma most_popular_series_of_other_kind :
  ∃ w' r d,
    home world_anime = (w', inr r) ∧
    d ∈ most_popular_series (data r) ∧
    ∀ l, l ∈ mongo_categories world_anime →
      (heap world_anime !!! l) !! "type" ≠ Some (VStr "series").
Proof.
  do 3 eexists. split_and!.
  - vm_compute. reflexivity.
  - simpl. left.
  - intros l ->%list_elem_of_singleton. by vm_compute.
Qed.

(** C10.  A category whose type is anything but ["movies"] feeds the
    series sections: in a run that returns, its three queries are the
    popularity query, the rating query and the recency query, whose first
    stage sorts on ['seasons.episodes.modified_time']; the first two
    slices are in [most_popular_series] and [top_rated_series], and the
    recency slice is a block of [newly_added_episodes]. *)
Theorem other_types_feed_series_sections w w' r l ty :
  home w = (w', inr r) →
  l ∈ mongo_categories w →
  (heap w !!! l) !! "type" = Some ty →
  ty ≠ VStr "movies" →
  let col := cat_col w l in
  let recency := ranked "seasons.episodes.modified_time" in
  query_result w col (ranked "popularity") = inr (slice w "popularity" l) ∧
  query_result w col (ranked "rating") = inr (slice w "rating" l) ∧
  query_result w col recency
    = inr (slice w "seasons.episodes.modified_time" l) ∧
  head recency = Some (SortDesc "seasons.episodes.modified_time") ∧
  (col, recency) ∈ drop (length (issued w)) (issued w') ∧
  slice w "popularity" l ⊆ most_popular_series (data r) ∧
  slice w "rating" l ⊆ top_rated_series (data r) ∧
  ∃ before after,
    newly_added_episodes (data r)
    = before ++ slice w "seasons.episodes.modified_time" l ++ after.
Proof.
  intros H%home_inr Hl Hty Hne. cbv zeta.
  apply (is_movies_false _ _ _ Hty) in Hne as Hm.
  destruct (run_served _ _ _ H l Hl) as (_ & _ & Hq). rewrite Hm in Hq.
  assert (Hother : l ∈ other_cats w) by (by apply list_elem_of_filter).
  split_and!.
  - apply Hq. by left.
  - apply Hq. right. by left.
  - apply Hq. do 2 right. by left.
  - done.
  - rewrite (run_issued _ _ _ H), drop_app_length. apply elem_of_gather.
    exists l. split; [done|]. unfold queries_of. rewrite Hm.
    do 2 right. by left.
  - intros d Hd.
    apply (sorted_desc_gather_elem _ _ _ _ _ _
             (run_most_popular_series _ _ _ H)). eauto.
  - intros d Hd.
    apply (sorted_desc_gather_elem _ _ _ _ _ _
             (run_top_rated_series _ _ _ H)). eauto.
  - apply list_elem_of_split in Hother as (ls1 & ls2 & E).
    rewrite (run_newly_added_episodes _ _ _ H), E, gather_app, gather_cons.
    eauto.
Qed.

Lemma other_types_feed_series_sections_witness :
  ∃ before after,
    newly_added_episodes (data response0)
    = before ++ slice world0 "seasons.episodes.modified_time" 1%nat ++ after.
Proof.
  apply (other_types_feed_series_sections world0 world0_after response0
           1%nat (VStr "series")).
  - vm_compute. reflexivity.
  - simpl. right. left.
  - vm_compute. reflexivity.
  - discriminate.
Defined.

(** *** Two runs in a row *)

Lemma frame_filter_is_movies w w' b :
  frame w w' →
  filter (λ l, is_movies w' l = b) (mongo_categories w')
  = filter (λ l, is_movies w l = b) (mongo_categories w).
Proof.
  intros Hf. pose proof Hf as (-> & _ & _).
  apply list_filter_iff. intros l. by rewrite (is_movies_frame _ _ _ Hf).
Qed.

Lemma gather_slice_frame w w' g ls :
  frame w w' → gather (slice w' g) ls = gather (slice w g) ls.
Proof. intros Hf. apply gather_ext. intros l. by apply slice_frame. Qed.

Lemma home_run_same_response w w1 w2 r1 r2 :
  home_run w w1 r1 → home_run w1 w2 r2 → r1 = r2.
Proof.
  intros H1 H2. pose proof (run_frame _ _ _ H1) as Hf.
  pose proof Hf as (Hc & _ & _).
  destruct H1 as [_ _ _ _ _ ok1 msg1 cat1 car1 mpm1 mps1 trm1 trs1 nam1 nae1].
  destruct H2 as [_ _ _ _ _ ok2 msg2 cat2 car2 mpm2 mps2 trm2 trs2 nam2 nae2].
  unfold movies_cats, other_cats in *.
  rewrite (frame_filter_is_movies _ _ true Hf) in mpm2, trm2, nam2.
  rewrite (frame_filter_is_movies _ _ false Hf) in mps2, trs2, nae2.
  rewrite (gather_slice_frame _ _ _ _ Hf) in mpm2.
  rewrite (gather_slice_frame _ _ _ _ Hf) in mps2.
  rewrite (gather_slice_frame _ _ _ _ Hf) in trm2.
  rewrite (gather_slice_frame _ _ _ _ Hf) in trs2.
  rewrite (gather_slice_frame _ _ _ _ Hf) in nam2.
  rewrite (gather_slice_frame _ _ _ _ Hf) in nae2.
  rewrite Hc in car2, cat2.
  rewrite (gather_ext _ (λ l, take 3 (slice w "popularity" l))) in car2
    by (intros l; by rewrite (slice_frame _ _ _ _ Hf)).
  rewrite (list_fmap_ext (with_metadata w1) (with_metadata w)) in cat2
    by (intros i l _; by apply with_metadata_frame).
  destruct r1 as [o1 m1 [c1 a1 b1 d1 e1 f1 g1 h1]].
  destruct r2 as [o2 m2 [c2 a2 b2 d2 e2 f2 g2 h2]].
  simpl in *. congruence.
Qed.

Lemma length_gather_queries w ls :
  length (gather (queries_of w) ls) = (3 * length ls)%nat.
Proof.
  induction ls as [|l ls IH]; [done|].
  rewrite gather_cons, length_app, IH. simpl. lia.
Qed.

(** C6, as the code has it.  There is no cache: the branch that
    regenerates is taken by every request.  A request that returns has
    sent three queries for each category, and a request that follows it
    sends them again, to return the same response. *)
Theorem every_request_queries_the_store w w1 r1 :
  home w = (w1, inr r1) →
  issued w1 = issued w ++ gather (queries_of w) (mongo_categories w) ∧
  length (issued w1) = (length (issued w) + 3 * length (mongo_categories w))%nat ∧
  ∀ w2 r2, home w1 = (w2, inr r2) →
    issued w2 = issued w1 ++ gather (queries_of w) (mongo_categories w) ∧
    r2 = r1.
Proof.
  intros H1%home_inr.
  pose proof (run_issued _ _ _ H1) as Hi. split_and!; [done| |].
  - by rewrite Hi, length_app, length_gather_queries.
  - intros w2 r2 H2%home_inr. pose proof (run_frame _ _ _ H1) as Hf.
    split; [|symmetry; by eapply home_run_same_response].
    rewrite (run_issued _ _ _ H2). destruct Hf as (-> & _ & _). f_equal.
    apply gather_ext. intros l. by apply queries_of_frame, (run_frame _ _ _ H1).
Qed.

Lemma every_request_queries_the_store_witness :
  length (issued world0_after) = (length (issued world0) + 3 * 2)%nat.
Proof.
  destruct (every_request_queries_the_store world0 world0_after response0)
    as (_ & H & _).
  - vm_compute. reflexivity.
  - exact H.
Defined.

(** C6, as stated, fails: the request that follows a successful
    generation on [world0] sends six queries of its own. *)
Lemma second_request_queries_again :
  ∃ w1 r1 w2 r2,
    home world0 = (w1, inr r1) ∧ home w1 = (w2, inr r2) ∧
    length (issued w1) = 6%nat ∧ length (issued w2) = 12%nat.
Proof.
  do 4 eexists. split_and!.
  - vm_compute. reflexivity.
  - vm_compute. reflexivity.
  - reflexivity.
  - reflexivity.
Qed.




(** C9, as the code has it.  A run changes no field of a category other
    than ["metadata"], nor the list of categories; a run that returns has
    set the ["metadata"] field of every category to the list of its
    popularity slice, and has left the other objects alone. *)
Theorem categories_change_only_in_metadata w :
  let w' := (home w).1 in
  mongo_categories w' = mongo_categories w ∧
  (∀ l k, k ≠ "metadata" → (heap w' !!! l) !! k = (heap w !!! l) !! k) ∧
  ∀ r, (home w).2 = inr r →
    (∀ l, l ∈ mongo_categories w →
       heap w' !!! l
       = <["metadata" := VArr (VObj <$> slice w "popularity" l)]> (heap w !!! l)) ∧
    (∀ l, l ∉ mongo_categories w → heap w' !! l = heap w !! l).
Proof.
  cbv zeta. destruct (preserves_home w) as (Hc & _ & Hk).
  split_and!; [done..|]. intros r Hr.
  assert (H : home w = ((home w).1, inr r)) by (rewrite <- Hr; by destruct (home w)).
  apply home_inr in H. split.
  - apply (run_heap_in _ _ _ H).
  - apply (run_heap_out _ _ _ H).
Qed.

Lemma categories_change_only_in_metadata_witness :
  heap (home world0).1 !!! 0%nat
  = <["metadata" := VArr (VObj <$> slice world0 "popularity" 0%nat)]>
      (heap world0 !!! 0%nat).
Proof.
  destruct (categories_change_only_in_metadata world0) as (_ & _ & H).
  destruct (H response0) as [Hin _].
  - vm_compute. reflexivity.
  - apply Hin. simpl. left.
Defined.

(** C9, as stated, fails: the first category of [world0] has no
    ["metadata"] field before the run and has one after it. *)
Lemma home_writes_metadata_into_the_category :
  (heap world0 !!! 0%nat) !! "metadata" = None ∧
  (heap (home world0).1 !!! 0%nat) !! "metadata"
  = Some (VArr (VObj <$> (project unwanted_keys
                            <$> [movie 10 3 2; movie 9 2 3; movie 8 1 1]))) ∧
  heap (home world0).1 !!! 0%nat ≠ heap world0 !!! 0%nat.
Proof.
  assert (H : (heap (home world0).1 !!! 0%nat) !! "metadata"
    = Some (VArr (VObj <$> (project unwanted_keys
                              <$> [movie 10 3 2; movie 9 2 3; movie 8 1 1]))))
    by (vm_compute; reflexivity).
  split_and!; [by vm_compute|done|].
  intros E. rewrite E in H. by vm_compute in H.
Qed.

(** The two newly-added sections of a run that returns: the movies are
    re-sorted, the episodes are the concatenation of the recency slices
    in the order of the categories. *)
Lemma newly_added_sections w w' r :
  home w = (w', inr r) →
  Sorted (desc_by "modified_time") (newly_added_movies (data r)) ∧
  newly_added_episodes (data r)
  = gather (slice w "seasons.episodes.modified_time") (other_cats w).
Proof.
  intros H%home_inr. split.
  - eapply sorted_desc_sorted, (run_newly_added_movies _ _ _ H).
  - apply (run_newly_added_episodes _ _ _ H).
Qed.

(** C2 on the code: [newly_added_episodes] is not re-sorted.  With two
    series categories whose only documents were modified at times 1 and 2
    (the episodes as well as the series), the section lists time 1
    before time 2. *)
Theorem newly_added_episodes_not_resorted :
  ∃ w' r,
    home world_two_series = (w', inr r) ∧
    newly_added_episodes (data r)
    = project unwanted_keys <$> [serie 1 1 1 [1]; serie 2 2 2 [2]] ∧
    field_values "modified_time" (newly_added_episodes (data r)) = nums [1; 2] ∧
    sort_key "seasons.episodes.modified_time" (serie 1 1 1 [1]) = VNum 1 ∧
    sort_key "seasons.episodes.modified_time" (serie 2 2 2 [2]) = VNum 2 ∧
    ¬ Sorted (desc_by "modified_time") (newly_added_episodes (data r)).
Proof.
  do 2 eexists. split_and!; try (vm_compute; reflexivity).
  intros Hs. apply Sorted_inv in Hs as [_ Hh]. apply HdRel_inv in Hh.
  destruct Hh as (kx & ky & Hx & Hy & Hlt).
  vm_compute in Hx, Hy. injection Hx as <-. injection Hy as <-. done.
Qed.

(* ===================================================================== *)
(** ** [home] returns on a well-formed store *)
(* ===================================================================== *)

Lemma bind_run {A B} (m : M A) (k : A → M B) w w1 a :
  m w = (w1, inr a) → (m ≫= k) w = k a w1.
Proof. intros H. unfold mbind, M_bind. by rewrite H. Qed.

Lemma py_insert_desc_nums {A} (x : value * A) l :
  (∃ n, x.1 = VNum n) → Forall (λ y, ∃ n, y.1 = VNum n) l →
  ∃ r, py_insert_desc x l = inr r ∧ Forall (λ y, ∃ n, y.1 = VNum n) r.
Proof.
  intros [n Hx] Hl. induction Hl as [|y l [m Hy] Hl (r & Hr & IH)]; simpl.
  - eexists. split; [done|]. repeat constructor. eauto.
  - rewrite Hx, Hy. simpl. destruct (n <? m).
    + rewrite Hr. simpl. eexists. split; [done|]. constructor; eauto.
    + eexists. split; [done|]. repeat constructor; eauto.
Qed.

Lemma py_sort_desc_nums {A} (l : list (value * A)) :
  Forall (λ y, ∃ n, y.1 = VNum n) l →
  ∃ r, py_sort_desc l = inr r ∧ Forall (λ y, ∃ n, y.1 = VNum n) r.
Proof.
  induction 1 as [|x l Hx Hl (r & Hr & IH)]; simpl.
  - eexists. split; [done|]. constructor.
  - rewrite Hr. simpl. by apply py_insert_desc_nums.
Qed.

Lemma sorted_desc_numeric f l :
  Forall (numeric f) l → ∃ r, sorted_desc f l = inr r.
Proof.
  intros Hl. unfold sorted_desc.
  assert (∃ keys, res_mapM (λ d, py_getitem d f) l = inr keys ∧
            Forall (λ y : value * document, ∃ n, y.1 = VNum n) (zip keys l))
    as (keys & -> & Hk).
  { induction Hl as [|d l [n Hd] Hl (keys & Hkeys & IH)]; simpl.
    - eexists. split; [done|]. constructor.
    - unfold py_getitem at 1. rewrite Hd. simpl. rewrite Hkeys. simpl.
      eexists. split; [done|]. constructor; eauto. }
  simpl. apply py_sort_desc_nums in Hk as (r & -> & _). simpl. eauto.
Qed.

Lemma numeric_project f d :
  f ∉ unwanted_keys → numeric f d → numeric f (project unwanted_keys d).
Proof.
  intros Hf [n Hn]. exists n. rewrite project_lookup. by case_decide.
Qed.

Lemma run_pipeline_numeric f g docs :
  f ∉ unwanted_keys → Forall (numeric f) docs →
  Forall (numeric f) (run_pipeline (ranked g) docs).
Proof.
  intros Hf Hd. rewrite run_pipeline_ranked, Forall_fmap.
  apply Forall_take. rewrite mongo_sort_desc_perm.
  eapply Forall_impl; [done|]. intros d. by apply numeric_project.
Qed.

Lemma not_unwanted f :
  f ∈ ["popularity"; "rating"; "modified_time"] → f ∉ unwanted_keys.
Proof.
  intros Hf Hu.
  repeat (apply elem_of_cons in Hf as [->|Hf];
    [repeat (apply elem_of_cons in Hu as [Hu|Hu]; [done|]);
     by apply elem_of_nil in Hu|]).
  by apply elem_of_nil in Hf.
Qed.

Lemma well_formed_frame w w' : frame w w' → well_formed w → well_formed w'.
Proof.
  intros (Hc & Hm & Hk) Hw l Hl. rewrite Hc in Hl.
  destruct (Hw l Hl) as (name & ty & docs & ? & ? & ? & ?).
  exists name, ty, docs. by rewrite !Hk, Hm.
Qed.

Lemma loop_body_returns l a w :
  well_formed w → l ∈ mongo_categories w →
  ∃ w' a', loop_body l a w = (w', inr a').
Proof.
  intros Hw Hl. destruct (Hw l Hl) as (name & ty & docs & Hid & Hty & Hc & _).
  unfold loop_body.
  rewrite (bind_run _ _ w w (VStr name))
    by (unfold getitem, py_getitem; by rewrite Hid).
  erewrite bind_run by (unfold aggregate, query_result; by rewrite Hc).
  erewrite bind_run by done.
  erewrite bind_run by (unfold aggregate, query_result; simpl; by rewrite Hc).
  erewrite (bind_run _ _ _ _ ty).
  2:{ unfold getitem, py_getitem. simpl.
      by rewrite lookup_total_insert_eq, lookup_insert_ne, Hty. }
  destruct (py_eq_str ty "movies");
    (erewrite bind_run by (unfold aggregate, query_result; simpl; by rewrite Hc));
    eauto.
Qed.

Lemma for_each_loop_returns ls a w :
  well_formed w → ls ⊆ mongo_categories w →
  ∃ w' a', for_each ls loop_body a w = (w', inr a').
Proof.
  revert a w. induction ls as [|l ls IH]; intros a w Hw Hls; simpl.
  - by eexists _, _.
  - destruct (loop_body_returns l a w Hw) as (w1 & a1 & H1).
    { apply Hls. by left. }
    rewrite (bind_run _ _ _ _ _ H1).
    assert (Hf : frame w w1).
    { pose proof (preserves_loop_body l a w) as Hp. by rewrite H1 in Hp. }
    apply IH; [by eapply well_formed_frame|].
    destruct Hf as (-> & _). intros x Hx. apply Hls. by right.
Qed.

Lemma gather_Forall_elem {A} (P : A → Prop) (f : loc → list A) ls :
  (∀ l, l ∈ ls → Forall P (f l)) → Forall P (gather f ls).
Proof.
  intros H. apply Forall_forall. intros x (l & Hl & Hx)%elem_of_gather.
  specialize (H l Hl). rewrite Forall_forall in H. by apply H.
Qed.

Lemma slice_numeric w f g l :
  well_formed w → l ∈ mongo_categories w →
  f = "popularity" ∨ f = "rating" ∨
    (f = "modified_time" ∧ is_movies w l = true) →
  Forall (numeric f) (slice w g l).
Proof.
  intros Hw Hl Hf.
  destruct (Hw l Hl) as (name & ty & docs & Hid & Hty & Hc & Hdocs).
  assert (Hcol : cat_col w l = VStr name) by (unfold cat_col; by rewrite Hid).
  unfold slice, query_result. rewrite Hcol, Hc.
  apply run_pipeline_numeric.
  - apply not_unwanted.
    destruct Hf as [->|[->|[-> _]]]; [by left|right; by left|do 2 right; by left].
  - eapply Forall_impl; [exact Hdocs|]. intros d (Hp & Hr & Hm).
    destruct Hf as [->|[->|[-> Hmov]]]; [done|done|]. apply Hm.
    apply is_movies_true in Hmov. congruence.
Qed.

(** On a well-formed store [home] returns a response. *)
Theorem home_returns w : well_formed w → ∃ w' r, home w = (w', inr r).
Proof.
  intros Hw. unfold home.
  rewrite (bind_run _ _ w w (mongo_categories w)) by done.
  destruct (for_each_loop_returns (mongo_categories w) no_locals w Hw)
    as (w1 & a & Hloop); [done|].
  rewrite (bind_run _ _ _ _ _ Hloop).
  apply for_each_loop_inr in Hloop as (-> & _).
  destruct (foldl_step_locals_fields w (mongo_categories w) no_locals)
    as (Ecd & Ecar & Empm & Emps & Etrm & Etrs & Enam & Enae).
  simpl in Ecd, Ecar, Empm, Emps, Etrm, Etrs, Enam, Enae.
  assert (Hin : ∀ b l, l ∈ filter (λ l, is_movies w l = b) (mongo_categories w)
            → l ∈ mongo_categories w ∧ is_movies w l = b).
  { intros b l [? ?]%list_elem_of_filter. done. }
  destruct (sorted_desc_numeric "popularity"
              (carousel_data (foldl (step_locals w) no_locals (mongo_categories w))))
    as [car Hcar].
  { rewrite Ecar. apply gather_Forall_elem. intros l Hl.
    apply Forall_take, slice_numeric; auto. }
  destruct (sorted_desc_numeric "popularity"
              (most_popular_movies_data
                 (foldl (step_locals w) no_locals (mongo_categories w))))
    as [mpm Hmpm].
  { rewrite Empm. apply gather_Forall_elem. intros l [Hl _]%Hin.
    apply slice_numeric; auto. }
  destruct (sorted_desc_numeric "popularity"
              (most_popular_series_data
                 (foldl (step_locals w) no_locals (mongo_categories w))))
    as [mps Hmps].
  { rewrite Emps. apply gather_Forall_elem. intros l [Hl _]%Hin.
    apply slice_numeric; auto. }
  destruct (sorted_desc_numeric "rating"
              (top_rated_movies_data
                 (foldl (step_locals w) no_locals (mongo_categories w))))
    as [trm Htrm].
  { rewrite Etrm. apply gather_Forall_elem. intros l [Hl _]%Hin.
    apply slice_numeric; auto. }
  destruct (sorted_desc_numeric "rating"
              (top_rated_series_data
                 (foldl (step_locals w) no_locals (mongo_categories w))))
    as [trs Htrs].
  { rewrite Etrs. apply gather_Forall_elem. intros l [Hl _]%Hin.
    apply slice_numeric; auto. }
  destruct (sorted_desc_numeric "modified_time"
              (newly_added_movies_data
                 (foldl (step_locals w) no_locals (mongo_categories w))))
    as [nam Hnam].
  { rewrite Enam. apply gather_Forall_elem. intros l [Hl Hm]%Hin.
    apply slice_numeric; auto. }
  erewrite bind_run by (unfold lift; by rewrite Hcar).
  erewrite bind_run by (unfold lift; by rewrite Hmpm).
  erewrite bind_run by (unfold lift; by rewrite Hmps).
  erewrite bind_run by (unfold lift; by rewrite Htrm).
  erewrite bind_run by (unfold lift; by rewrite Htrs).
  erewrite bind_run by (unfold lift; by rewrite Hnam).
  erewrite bind_run by done.
  by eexists _, _.
Qed.

Example world0_well_formed : well_formed world0.
Proof.
  intros l Hl. simpl in Hl.
  apply elem_of_cons in Hl as [->|Hl];
    [|apply elem_of_cons in Hl as [->|Hl]; [|by apply elem_of_nil in Hl]].
  - exists "m", (VStr "movies"), [movie 8 1 1; movie 10 3 2; movie 9 2 3].
    split_and!; try (vm_compute; reflexivity).
    repeat constructor; try (eexists; vm_compute; reflexivity).
  - exists "s", (VStr "series"),
      [serie 5 1 1 [1;4]; serie 7 2 2 [9]; serie 6 3 3 [2;3]].
    split_and!; try (vm_compute; reflexivity).
    repeat constructor; try (eexists; vm_compute; reflexivity); discriminate.
Qed.

(* ===================================================================== *)
(** ** Further properties of [home] *)
(* ===================================================================== *)

(** The run of [home] on the first sample store. *)
Lemma home_world0 : home world0 = (world0_after, inr response0).
Proof. vm_compute. reflexivity. Qed.

(** X1.  On a well-formed store a request succeeds: [home] returns a
    response with [ok = True] and the message ["success"], and the
    application answers with that response. *)
Theorem home_succeeds_on_well_formed_store w :
  well_formed w →
  ∃ w' r, home w = (w', inr r) ∧ ok r = true ∧ message r = "success" ∧
          get_home w = (w', Http200 r).
Proof.
  intros (w' & r & H)%home_returns. exists w', r.
  pose proof (home_inr _ _ _ H) as Hrun.
  split_and!; [done|apply (run_ok _ _ _ Hrun)|apply (run_message _ _ _ Hrun)|].
  unfold get_home. by rewrite H.
Qed.

Lemma home_succeeds_on_well_formed_store_witness :
  ∃ w' r, home world0 = (w', inr r) ∧ ok r = true ∧ message r = "success" ∧
          get_home world0 = (w', Http200 r).
Proof.
  apply home_succeeds_on_well_formed_store. exact world0_well_formed.
Defined.

Lemma sorted_desc_inr_keys f l r :
  sorted_desc f l = inr r → Forall (λ d : document, is_Some (d !! f)) l.
Proof.
  unfold sorted_desc. intros (keys & Hk%res_mapM_inr & _)%res_bind_inr.
  induction Hk as [|d k l keys Hd%py_getitem_inr]; constructor; eauto.
Qed.

Lemma served_queryable w l : served w l → queryable w l.
Proof.
  intros ([col Hid] & [ty Hty] & Hq).
  specialize (Hq "popularity" ltac:(by left)).
  unfold cat_col in Hq. rewrite Hid in Hq. simpl in Hq.
  unfold query_result in Hq. destruct col as [| |name| |]; try done.
  destruct (mongo_metadata w !! name) as [[docs|]|] eqn:Hc; try done.
  by exists name, ty, docs.
Qed.

Lemma gather_Forall_inv {A} (P : A → Prop) (f : loc → list A) ls l :
  Forall P (gather f ls) → l ∈ ls → Forall P (f l).
Proof.
  rewrite !Forall_forall. intros H Hl x Hx. apply H, elem_of_gather. eauto.
Qed.

(** X2.  A request is all or nothing.  When [home] returns, every
    category of the store has an ["id"] that names a reachable
    collection and a ["type"], every document of its popularity slice has
    a popularity, every document of its rating slice a rating, and, for a
    category of movies, every document of its recency slice a
    modification time: one category or one listed document that lacks
    any of these makes the whole request fail. *)
Theorem home_returns_only_if_all_categories_good w w' r l :
  home w = (w', inr r) →
  l ∈ mongo_categories w →
  queryable w l ∧
  Forall (λ d : document, is_Some (d !! "popularity")) (slice w "popularity" l) ∧
  Forall (λ d : document, is_Some (d !! "rating")) (slice w "rating" l) ∧
  (is_movies w l = true →
   Forall (λ d : document, is_Some (d !! "modified_time"))
          (slice w "modified_time" l)).
Proof.
  intros H%home_inr Hl.
  assert (Hmov : is_movies w l = true → l ∈ movies_cats w)
    by (intros ?; by apply list_elem_of_filter).
  assert (Hoth : is_movies w l = false → l ∈ other_cats w)
    by (intros ?; by apply list_elem_of_filter).
  split_and!.
  - apply served_queryable, (run_served _ _ _ H), Hl.
  - destruct (is_movies w l).
    + eapply gather_Forall_inv; [|by apply Hmov].
      eapply sorted_desc_inr_keys, (run_most_popular_movies _ _ _ H).
    + eapply gather_Forall_inv; [|by apply Hoth].
      eapply sorted_desc_inr_keys, (run_most_popular_series _ _ _ H).
  - destruct (is_movies w l).
    + eapply gather_Forall_inv; [|by apply Hmov].
      eapply sorted_desc_inr_keys, (run_top_rated_movies _ _ _ H).
    + eapply gather_Forall_inv; [|by apply Hoth].
      eapply sorted_desc_inr_keys, (run_top_rated_series _ _ _ H).
  - intros Hm. eapply gather_Forall_inv; [|by apply Hmov].
    eapply sorted_desc_inr_keys, (run_newly_added_movies _ _ _ H).
Qed.

Lemma home_returns_only_if_all_categories_good_witness :
  queryable world0 0%nat ∧
  Forall (λ d : document, is_Some (d !! "popularity"))
         (slice world0 "popularity" 0%nat) ∧
  Forall (λ d : document, is_Some (d !! "rating")) (slice world0 "rating" 0%nat) ∧
  (is_movies world0 0%nat = true →
   Forall (λ d : document, is_Some (d !! "modified_time"))
          (slice world0 "modified_time" 0%nat)).
Proof.
  apply (home_returns_only_if_all_categories_good world0 world0_after response0).
  - exact home_world0.
  - simpl. left.
Defined.



Lemma gather_partition {A} (f : loc → list A) (p : loc → bool) ls :
  gather f (filter (λ l, p l = true) ls)
    ++ gather f (filter (λ l, p l = false) ls)
  ≡ₚ gather f ls.
Proof.
  induction ls as [|x ls IH]; [done|].
  rewrite gather_cons. destruct (p x) eqn:Hx.
  - rewrite (filter_cons_True (λ l, p l = true)) by done.
    rewrite (filter_cons_False (λ l, p l = false)) by (by rewrite Hx).
    by rewrite gather_cons, <- app_assoc, IH.
  - rewrite (filter_cons_False (λ l, p l = true)) by (by rewrite Hx).
    rewrite (filter_cons_True (λ l, p l = false)) by done.
    rewrite gather_cons, <- IH.
    by rewrite !app_assoc, (Permutation_app_comm (gather f _) (f x)).
Qed.

(** X4.  The split by type loses and duplicates nothing: the two
    most-popular sections together are a permutation of the popularity
    slices of all the categories, and the two top-rated sections together
    a permutation of their rating slices. *)
Theorem kind_partition_loses_nothing w w' r :
  home w = (w', inr r) →
  most_popular_movies (data r) ++ most_popular_series (data r)
    ≡ₚ gather (slice w "popularity") (mongo_categories w) ∧
  top_rated_movies (data r) ++ top_rated_series (data r)
    ≡ₚ gather (slice w "rating") (mongo_categories w).
Proof.
  intros H%home_inr. split.
  - rewrite (sorted_desc_perm _ _ _ (run_most_popular_movies _ _ _ H)),
      (sorted_desc_perm _ _ _ (run_most_popular_series _ _ _ H)).
    apply (gather_partition _ (is_movies w)).
  - rewrite (sorted_desc_perm _ _ _ (run_top_rated_movies _ _ _ H)),
      (sorted_desc_perm _ _ _ (run_top_rated_series _ _ _ H)).
    apply (gather_partition _ (is_movies w)).
Qed.

Lemma kind_partition_loses_nothing_witness :
  most_popular_movies (data response0) ++ most_popular_series (data response0)
    ≡ₚ gather (slice world0 "popularity") (mongo_categories world0) ∧
  top_rated_movies (data response0) ++ top_rated_series (data response0)
    ≡ₚ gather (slice world0 "rating") (mongo_categories world0).
Proof.
  apply (kind_partition_loses_nothing world0 world0_after response0).
  exact home_world0.
Defined.

(** X5.  Every document of the carousel is also listed in
    [most_popular_movies] or in [most_popular_series]. *)
Theorem carousel_within_most_popular w w' r :
  home w = (w', inr r) →
  carousel (data r)
    ⊆ most_popular_movies (data r) ++ most_popular_series (data r).
Proof.
  intros H d Hd. destruct (kind_partition_loses_nothing _ _ _ H) as [Hp _].
  apply home_inr in H.
  rewrite (sorted_desc_perm _ _ _ (run_carousel _ _ _ H)) in Hd.
  apply elem_of_gather in Hd as (l & Hl & Hd%subseteq_take).
  rewrite Hp. apply elem_of_gather. eauto.
Qed.

Lemma carousel_within_most_popular_witness :
  carousel (data response0)
    ⊆ most_popular_movies (data response0) ++ most_popular_series (data response0).
Proof.
  apply (carousel_within_most_popular world0 world0_after response0).
  exact home_world0.
Defined.

Lemma slice_length w f l : (length (slice w f l) ≤ data_cap_limit)%nat.
Proof.
  unfold slice, query_result.
  destruct (cat_col w l); try (simpl; lia).
  destruct (_ !! _) as [[docs|]|]; try (simpl; lia).
  rewrite run_pipeline_ranked, length_fmap, length_take. lia.
Qed.

Lemma gather_length_le {A} (f : loc → list A) n ls :
  (∀ l, length (f l) ≤ n)%nat → (length (gather f ls) ≤ n * length ls)%nat.
Proof.
  intros Hf. induction ls as [|x ls IH]; [simpl; lia|].
  rewrite gather_cons, length_app. specialize (Hf x). simpl. lia.
Qed.

(** X6.  The size of a response is bounded by the number of categories:
    the carousel has at most three documents for each category, and each
    of the six other lists of documents at most [data_cap_limit] for each
    category of its kind. *)
Theorem section_sizes_bounded w w' r :
  home w = (w', inr r) →
  let n := length (mongo_categories w) in
  let m := length (movies_cats w) in
  let s := length (other_cats w) in
  (m + s = n ∧
   length (carousel (data r)) ≤ 3 * n ∧
   length (most_popular_movies (data r)) ≤ data_cap_limit * m ∧
   length (most_popular_series (data r)) ≤ data_cap_limit * s ∧
   length (top_rated_movies (data r)) ≤ data_cap_limit * m ∧
   length (top_rated_series (data r)) ≤ data_cap_limit * s ∧
   length (newly_added_movies (data r)) ≤ data_cap_limit * m ∧
   length (newly_added_episodes (data r)) ≤ data_cap_limit * s)%nat.
Proof.
  intros H%home_inr. cbv zeta.
  assert (Hs : ∀ f g ls out, sorted_desc f (gather (slice w g) ls) = inr out →
            (length out ≤ data_cap_limit * length ls)%nat).
  { intros f g ls out ->%sorted_desc_perm.
    apply gather_length_le. intros l. apply slice_length. }
  split_and!.
  - unfold movies_cats, other_cats.
    induction (mongo_categories w) as [|x ls IH]; [done|].
    destruct (is_movies w x) eqn:Hx.
    + rewrite (filter_cons_True (λ l, is_movies w l = true)) by done.
      rewrite (filter_cons_False (λ l, is_movies w l = false))
        by (by rewrite Hx).
      simpl. lia.
    + rewrite (filter_cons_False (λ l, is_movies w l = true))
        by (by rewrite Hx).
      rewrite (filter_cons_True (λ l, is_movies w l = false)) by done.
      simpl. lia.
  - rewrite (sorted_desc_perm _ _ _ (run_carousel _ _ _ H)).
    apply gather_length_le. intros l. rewrite length_take. lia.
  - exact (Hs _ _ _ _ (run_most_popular_movies _ _ _ H)).
  - exact (Hs _ _ _ _ (run_most_popular_series _ _ _ H)).
  - exact (Hs _ _ _ _ (run_top_rated_movies _ _ _ H)).
  - exact (Hs _ _ _ _ (run_top_rated_series _ _ _ H)).
  - exact (Hs _ _ _ _ (run_newly_added_movies _ _ _ H)).
  - rewrite (run_newly_added_episodes _ _ _ H).
    apply gather_length_le. intros l. apply slice_length.
Qed.

Lemma section_sizes_bounded_witness :
  (length (carousel (data response0)) ≤ 3 * length (mongo_categories world0))%nat.
Proof.
  destruct (section_sizes_bounded world0 world0_after response0)
    as (_ & H & _).
  - exact home_world0.
  - exact H.
Defined.

(** X7.  The categories section lists the categories of the store in
    their order: the entry of a category is its dictionary as the run
    left it in the store, that is its own fields with, under
    ["metadata"], the list of its popularity slice. *)
Theorem categories_section_content w w' r :
  home w = (w', inr r) →
  length (categories (data r)) = length (mongo_categories w) ∧
  categories (data r) = (λ l, heap w' !!! l) <$> mongo_categories w ∧
  ∀ i l, mongo_categories w !! i = Some l →
    ∃ c, categories (data r) !! i = Some c ∧
      c !! "metadata" = Some (VArr (VObj <$> slice w "popularity" l)) ∧
      ∀ k, k ≠ "metadata" → c !! k = (heap w !!! l) !! k.
Proof.
  intros H%home_inr. rewrite (run_categories _ _ _ H). split_and!.
  - by rewrite length_fmap.
  - apply list_fmap_ext. intros i l Hl. symmetry.
    apply (run_heap_in _ _ _ H). by eapply list_elem_of_lookup_2.
  - intros i l Hl. exists (with_metadata w l). split_and!.
    + by rewrite list_lookup_fmap, Hl.
    + unfold with_metadata. by rewrite lookup_insert_eq.
    + intros k Hk. unfold with_metadata. by rewrite lookup_insert_ne.
Qed.

Lemma categories_section_content_witness :
  length (categories (data response0)) = length (mongo_categories world0).
Proof.
  destruct (categories_section_content world0 world0_after response0)
    as (H & _).
  - exact home_world0.
  - exact H.
Defined.

(* ===================================================================== *)
(** ** A category that stops the request *)
(* ===================================================================== *)

Lemma bind_fail {A B} (m : M A) (k : A → M B) w w1 e :
  m w = (w1, inl e) → (m ≫= k) w = (w1, inl e).
Proof. intros H. unfold mbind, M_bind. by rewrite H. Qed.

Lemma for_each_fails_at {A S} (body : A → S → M S) before x after a w w1 a1 w2 e :
  for_each before body a w = (w1, inr a1) →
  body x a1 w1 = (w2, inl e) →
  for_each (before ++ x :: after) body a w = (w2, inl e).
Proof.
  revert a w. induction before as [|y before IH]; intros a w; simpl.
  - intros [= <- <-] Hx. by apply bind_fail.
  - intros (w0 & a0 & Hy & H)%bind_inr Hx.
    rewrite (bind_run _ _ _ _ _ Hy). by apply IH.
Qed.

Lemma home_fails_at w before l after w1 a1 w2 e :
  mongo_categories w = before ++ l :: after →
  for_each before loop_body no_locals w = (w1, inr a1) →
  loop_body l a1 w1 = (w2, inl e) →
  home w = (w2, inl e).
Proof.
  intros Hc Hb Hl. unfold home.
  rewrite (bind_run _ _ w w (mongo_categories w)) by done.
  apply bind_fail. rewrite Hc. by eapply for_each_fails_at.
Qed.

Lemma queryable_frame w w' l : frame w w' → queryable w l → queryable w' l.
Proof.
  intros (_ & Hm & Hk) (name & ty & docs & ? & ? & ?).
  exists name, ty, docs. by rewrite !Hk, Hm.
Qed.

Lemma loop_body_queryable l a w :
  queryable w l → ∃ w' a', loop_body l a w = (w', inr a').
Proof.
  intros (name & ty & docs & Hid & Hty & Hc).
  unfold loop_body.
  rewrite (bind_run _ _ w w (VStr name))
    by (unfold getitem, py_getitem; by rewrite Hid).
  erewrite bind_run by (unfold aggregate, query_result; by rewrite Hc).
  erewrite bind_run by done.
  erewrite bind_run by (unfold aggregate, query_result; simpl; by rewrite Hc).
  erewrite (bind_run _ _ _ _ ty).
  2:{ unfold getitem, py_getitem. simpl.
      by rewrite lookup_total_insert_eq, lookup_insert_ne, Hty. }
  destruct (py_eq_str ty "movies");
    (erewrite bind_run by (unfold aggregate, query_result; simpl; by rewrite Hc));
    eauto.
Qed.

Lemma for_each_queryable ls a w :
  (∀ x, x ∈ ls → queryable w x) →
  ∃ w' a', for_each ls loop_body a w = (w', inr a').
Proof.
  revert a w. induction ls as [|l ls IH]; intros a w Hq; simpl.
  - by eexists _, _.
  - destruct (loop_body_queryable l a w) as (w1 & a1 & H1).
    { apply Hq. by left. }
    rewrite (bind_run _ _ _ _ _ H1).
    assert (Hf : frame w w1).
    { pose proof (preserves_loop_body l a w) as Hp. by rewrite H1 in Hp. }
    apply IH. intros x Hx. eapply queryable_frame; [done|]. apply Hq. by right.
Qed.

(** The run of the loop over the categories that precede the one that
    fails. *)
Lemma prefix_run w before :
  (∀ x, x ∈ before → queryable w x) →
  ∃ w1 a1,
    for_each before loop_body no_locals w = (w1, inr a1) ∧
    frame w w1 ∧
    issued w1 = issued w ++ gather (queries_of w) before ∧
    (∀ x, x ∉ before → heap w1 !! x = heap w !! x).
Proof.
  intros Hq. destruct (for_each_queryable before no_locals w Hq) as (w1 & a1 & H).
  exists w1, a1. split; [done|].
  pose proof (preserves_for_each before loop_body no_locals
                preserves_loop_body w) as Hf.
  rewrite H in Hf.
  apply for_each_loop_inr in H as (_ & Hi & _ & Hout & _). done.
Qed.

(** X8.  A category without ["id"] stops the request with
    [KeyError('id')]: the categories before it have been queried (and
    have received their ["metadata"]), no query is sent for it nor for
    the categories after it, and no other dictionary is touched. *)
Theorem missing_id_stops_the_request w before l after :
  mongo_categories w = before ++ l :: after →
  (∀ x, x ∈ before → queryable w x) →
  (heap w !!! l) !! "id" = None →
  (home w).2 = inl (KeyError "id") ∧
  issued (home w).1 = issued w ++ gather (queries_of w) before ∧
  ∀ x, x ∉ before → heap (home w).1 !! x = heap w !! x.
Proof.
  intros Hc Hq Hid.
  destruct (prefix_run w before Hq) as (w1 & a1 & Hb & Hf & Hi & Hout).
  assert (Hl : loop_body l a1 w1 = (w1, inl (KeyError "id"))).
  { unfold loop_body. apply bind_fail. unfold getitem, py_getitem.
    destruct Hf as (_ & _ & Hk). by rewrite Hk, Hid. }
  rewrite (home_fails_at _ _ _ _ _ _ _ _ Hc Hb Hl). done.
Qed.

Lemma missing_id_stops_the_request_witness :
  (home world_no_id).2 = inl (KeyError "id") ∧
  issued (home world_no_id).1
    = issued world_no_id ++ gather (queries_of world_no_id) [0%nat] ∧
  ∀ x, x ∉ [0%nat] → heap (home world_no_id).1 !! x = heap world_no_id !! x.
Proof.
  apply (missing_id_stops_the_request world_no_id [0%nat] 1%nat []).
  - reflexivity.
  - intros x ->%list_elem_of_singleton.
    exists "m", (VStr "movies"), [movie 1 1 1].
    split_and!; vm_compute; reflexivity.
  - vm_compute. reflexivity.
Defined.

(** X9.  A category whose popularity query fails, because its collection
    cannot be reached or does not exist, stops the request with the
    error of the store: that query is the last one sent, the category
    has not received its ["metadata"], and the categories after it are
    not visited. *)
Theorem store_failure_stops_the_request w before l after col e :
  mongo_categories w = before ++ l :: after →
  (∀ x, x ∈ before → queryable w x) →
  (heap w !!! l) !! "id" = Some col →
  query_result w col (ranked "popularity") = inl e →
  (home w).2 = inl e ∧
  issued (home w).1
    = issued w ++ gather (queries_of w) before ++ [(col, ranked "popularity")] ∧
  ∀ x, x ∉ before → heap (home w).1 !! x = heap w !! x.
Proof.
  intros Hc Hq Hid He.
  destruct (prefix_run w before Hq) as (w1 & a1 & Hb & Hf & Hi & Hout).
  assert (Hl : loop_body l a1 w1
    = (mkWorld (heap w1) (mongo_categories w1) (mongo_metadata w1)
               (issued w1 ++ [(col, ranked "popularity")]), inl e)).
  { unfold loop_body. destruct Hf as (_ & Hm & Hk).
    rewrite (bind_run _ _ w1 w1 col)
      by (unfold getitem, py_getitem; by rewrite Hk, Hid).
    apply bind_fail. unfold aggregate. f_equal.
    unfold query_result in *. by rewrite Hm. }
  rewrite (home_fails_at _ _ _ _ _ _ _ _ Hc Hb Hl). simpl.
  by rewrite Hi, <- app_assoc.
Qed.

Lemma store_failure_stops_the_request_witness :
  (home world_unreachable).2 = inl StoreUnavailable ∧
  issued (home world_unreachable).1
    = issued world_unreachable
        ++ gather (queries_of world_unreachable) [0%nat]
        ++ [(VStr "s", ranked "popularity")] ∧
  ∀ x, x ∉ [0%nat] →
    heap (home world_unreachable).1 !! x = heap world_unreachable !! x.
Proof.
  apply (store_failure_stops_the_request world_unreachable [0%nat] 1%nat []).
  - reflexivity.
  - intros x ->%list_elem_of_singleton.
    exists "m", (VStr "movies"), [movie 1 1 1].
    split_and!; vm_compute; reflexivity.
  - vm_compute. reflexivity.
  - vm_compute. reflexivity.
Defined.

(** X10.  A category without ["type"] stops the request with
    [KeyError('type')] only after its popularity and rating queries have
    been sent and its ["metadata"] has been written: the failed request
    leaves that category changed in the store. *)
Theorem missing_type_stops_the_request_after_the_write w before l after name docs :
  mongo_categories w = before ++ l :: after →
  (∀ x, x ∈ before → queryable w x) →
  (heap w !!! l) !! "id" = Some (VStr name) →
  mongo_metadata w !! name = Some (Docs docs) →
  (heap w !!! l) !! "type" = None →
  (home w).2 = inl (KeyError "type") ∧
  issued (home w).1
    = issued w ++ gather (queries_of w) before
        ++ [(VStr name, ranked "popularity"); (VStr name, ranked "rating")] ∧
  heap (home w).1 !!! l
    = <["metadata" := VArr (VObj <$> run_pipeline (ranked "popularity") docs)]>
        (heap w !!! l).
Proof.
  intros Hc Hq Hid Hcol Hty.
  destruct (prefix_run w before Hq) as (w1 & a1 & Hb & Hf & Hi & Hout).
  pose proof Hf as (_ & Hm & Hk).
  assert (Hnot : l ∉ before).
  { intros Hin. destruct (Hq l Hin) as (? & ? & ? & _ & Hty' & _). congruence. }
  set (pop := run_pipeline (ranked "popularity") docs).
  set (h2 := <[l := <["metadata" := VArr (VObj <$> pop)]> (heap w1 !!! l)]>
               (heap w1)).
  assert (Hl : loop_body l a1 w1
    = (mkWorld h2 (mongo_categories w1) (mongo_metadata w1)
         ((issued w1 ++ [(VStr name, ranked "popularity")])
            ++ [(VStr name, ranked "rating")]),
       inl (KeyError "type"))).
  { unfold loop_body.
    rewrite (bind_run _ _ w1 w1 (VStr name))
      by (unfold getitem, py_getitem; by rewrite Hk, Hid).
    erewrite (bind_run _ _ _ _ pop)
      by (unfold aggregate, query_result; by rewrite Hm, Hcol).
    erewrite bind_run by done.
    erewrite bind_run
      by (unfold aggregate, query_result; simpl; by rewrite ?Hm, Hcol).
    apply bind_fail. unfold getitem, py_getitem, h2. simpl.
    rewrite lookup_total_insert_eq. rewrite lookup_insert_ne by done.
    rewrite Hk by done. by rewrite Hty, ?Hm. }
  rewrite (home_fails_at _ _ _ _ _ _ _ _ Hc Hb Hl). simpl. split_and!.
  - done.
  - by rewrite Hi, <- !app_assoc.
  - unfold h2. rewrite lookup_total_insert_eq.
    unfold lookup_total, map_lookup_total. by rewrite (Hout _ Hnot).
Qed.

Lemma missing_type_stops_the_request_after_the_write_witness :
  (home world_no_type).2 = inl (KeyError "type") ∧
  issued (home world_no_type).1
    = issued world_no_type ++ gather (queries_of world_no_type) [0%nat]
        ++ [(VStr "m", ranked "popularity"); (VStr "m", ranked "rating")] ∧
  heap (home world_no_type).1 !!! 1%nat
    = <["metadata" :=
          VArr (VObj <$> run_pipeline (ranked "popularity") [movie 1 1 1])]>
        (heap world_no_type !!! 1%nat).
Proof.
  apply (missing_type_stops_the_request_after_the_write
           world_no_type [0%nat] 1%nat [] "m" [movie 1 1 1]).
  - reflexivity.
  - intros x ->%list_elem_of_singleton.
    exists "m", (VStr "movies"), [movie 1 1 1].
    split_and!; vm_compute; reflexivity.
  - vm_compute. reflexivity.
  - vm_compute. reflexivity.
  - vm_compute. reflexivity.
Defined.

(* ===================================================================== *)
(** ** The queries of any run *)
(* ===================================================================== *)

Lemma sends_ret {A} (a : A) : sends_at_most 0 (mret a).
Proof. intros w. exists []. by rewrite app_nil_r. Qed.

Lemma sends_lift {A} (r : result A) : sends_at_most 0 (lift r).
Proof. intros w. exists []. by rewrite app_nil_r. Qed.

Lemma sends_getitem l k : sends_at_most 0 (getitem l k).
Proof. intros w. exists []. by rewrite app_nil_r. Qed.

Lemma sends_setitem l k v : sends_at_most 0 (setitem l k v).
Proof. intros w. exists []. simpl. by rewrite app_nil_r. Qed.

Lemma sends_deref_all ls : sends_at_most 0 (deref_all ls).
Proof. intros w. exists []. by rewrite app_nil_r. Qed.

Lemma sends_aggregate col f : sends_at_most 1 (aggregate col (ranked f)).
Proof.
  intros w. exists [(col, ranked f)]. split_and!; [done|done|].
  repeat constructor. by exists f.
Qed.

Lemma sends_bind {A B} n1 n2 (m : M A) (k : A → M B) :
  sends_at_most n1 m → (∀ a, sends_at_most n2 (k a)) →
  sends_at_most (n1 + n2) (m ≫= k).
Proof.
  intros Hm Hk w. unfold mbind, M_bind.
  destruct (Hm w) as (qs1 & H1 & Hn1 & Hf1).
  destruct (m w) as [w1 [e|a]]; simpl in *.
  - exists qs1. split_and!; [done|lia|done].
  - destruct (Hk a w1) as (qs2 & H2 & Hn2 & Hf2).
    exists (qs1 ++ qs2). split_and!.
    + by rewrite H2, H1, app_assoc.
    + rewrite length_app. lia.
    + by apply Forall_app.
Qed.

Lemma sends_weaken {A} n n' (m : M A) :
  (n ≤ n')%nat → sends_at_most n m → sends_at_most n' m.
Proof.
  intros Hn Hm w. destruct (Hm w) as (qs & ? & ? & ?).
  exists qs. split_and!; [done|lia|done].
Qed.

Lemma sends_loop_body l a : sends_at_most 3 (loop_body l a).
Proof.
  unfold loop_body.
  apply (sends_bind 0 3); [apply sends_getitem|intros col].
  apply (sends_bind 1 2); [apply sends_aggregate|intros pop].
  apply (sends_bind 0 2); [apply sends_setitem|intros _].
  apply (sends_bind 1 1); [apply sends_aggregate|intros rat].
  apply (sends_bind 0 1); [apply sends_getitem|intros ty].
  destruct (py_eq_str ty "movies");
    (apply (sends_bind 1 0); [apply sends_aggregate|intros ?; apply sends_ret]).
Qed.

Lemma sends_for_each ls a :
  sends_at_most (3 * length ls) (for_each ls loop_body a).
Proof.
  revert a. induction ls as [|l ls IH]; intros a; simpl for_each.
  - apply sends_ret.
  - eapply sends_weaken; [|apply (sends_bind 3 (3 * length ls))];
      [simpl; lia|apply sends_loop_body|apply IH].
Qed.

(** X11.  Whatever happens to a request, it only adds queries to those
    the store has received, at most three for each category, and each of
    them a sort on one field followed by the limit [data_cap_limit] and
    the projection on [unwanted_keys]. *)
Theorem home_query_budget w :
  ∃ qs,
    issued (home w).1 = issued w ++ qs ∧
    (length qs ≤ 3 * length (mongo_categories w))%nat ∧
    Forall (λ q : value * pipeline, ∃ f, q.2 = ranked f) qs.
Proof.
  unfold home. rewrite (bind_run _ _ w w (mongo_categories w)) by done.
  match goal with
  | |- context [ (?m ≫= ?k) w ] =>
      assert (H : sends_at_most (3 * length (mongo_categories w) + 0) (m ≫= k))
  end.
  { apply sends_bind; [apply sends_for_each|intros a].
    repeat (apply (sends_bind 0 0); [apply sends_lift|intros ?]).
    apply (sends_bind 0 0); [apply sends_deref_all|intros ?].
    apply sends_ret. }
  destruct (H w) as (qs & Hi & Hn & Hf). exists qs. split_and!; [done|lia|done].
Qed.

(* ===================================================================== *)
(** ** Where the listed documents come from *)
(* ===================================================================== *)

Lemma slice_stored_origin w f l d :
  l ∈ mongo_categories w → d ∈ slice w f l → stored_origin w d.
Proof.
  intros Hl. unfold slice.
  destruct (query_result w (cat_col w l) (ranked f)) as [e|ds] eqn:Hq;
    [by intros ?%elem_of_nil|].
  unfold query_result in Hq.
  destruct (cat_col w l) as [| |name| |] eqn:Hcol; try done.
  destruct (mongo_metadata w !! name) as [[docs|]|] eqn:Hc; try done.
  injection Hq as <-.
  intros (d0 & -> & Hd0%subseteq_take)%list_elem_of_fmap.
  rewrite mongo_sort_desc_perm in Hd0. exists l, name, docs, d0.
  split_and!; try done.
  unfold cat_col in Hcol. destruct (_ !! "id") as [v|]; simpl in Hcol; by subst.
Qed.

Lemma gather_stored_origin w f ls d :
  ls ⊆ mongo_categories w → d ∈ gather (slice w f) ls → stored_origin w d.
Proof.
  intros Hls (l & Hl & Hd)%elem_of_gather.
  eapply slice_stored_origin; [|done]. by apply Hls.
Qed.

(** X14.  [home] invents no document and alters none beyond the
    projection: every document of every section is a document stored in
    the collection of one of the categories, with the fields of
    [unwanted_keys] removed and every other field as stored. *)
Theorem listed_documents_are_stored_ones w w' r :
  home w = (w', inr r) →
  Forall
    (λ d : document, ∃ l name docs d0,
       l ∈ mongo_categories w ∧
       (heap w !!! l) !! "id" = Some (VStr name) ∧
       mongo_metadata w !! name = Some (Docs docs) ∧
       d0 ∈ docs ∧
       ∀ k, d !! k = if decide (k ∈ unwanted_keys) then None else d0 !! k)
    (carousel (data r) ++ most_popular_movies (data r)
       ++ most_popular_series (data r) ++ top_rated_movies (data r)
       ++ top_rated_series (data r) ++ newly_added_movies (data r)
       ++ newly_added_episodes (data r)).
Proof.
  intros H%home_inr. apply Forall_forall. intros d Hd.
  assert (Hsub : ∀ b, filter (λ l, is_movies w l = b) (mongo_categories w)
                   ⊆ mongo_categories w).
  { intros b l [_ ?]%list_elem_of_filter. done. }
  assert (Ho : stored_origin w d).
  { rewrite (sorted_desc_perm _ _ _ (run_carousel _ _ _ H)),
      (sorted_desc_perm _ _ _ (run_most_popular_movies _ _ _ H)),
      (sorted_desc_perm _ _ _ (run_most_popular_series _ _ _ H)),
      (sorted_desc_perm _ _ _ (run_top_rated_movies _ _ _ H)),
      (sorted_desc_perm _ _ _ (run_top_rated_series _ _ _ H)),
      (sorted_desc_perm _ _ _ (run_newly_added_movies _ _ _ H)),
      (run_newly_added_episodes _ _ _ H) in Hd.
    rewrite !elem_of_app in Hd.
    destruct Hd as [Hd|[Hd|[Hd|[Hd|[Hd|[Hd|Hd]]]]]];
      try (eapply gather_stored_origin; [|exact Hd]; apply Hsub).
    apply elem_of_gather in Hd as (l & Hl & Hd%subseteq_take).
    by eapply slice_stored_origin. }
  destruct Ho as (l & name & docs & d0 & ? & ? & ? & ? & ->).
  exists l, name, docs, d0. split_and!; [done..|].
  intros k. apply project_lookup.
Qed.

Lemma listed_documents_are_stored_ones_witness :
  Forall
    (λ d : document, ∃ l name docs d0,
       l ∈ mongo_categories world0 ∧
       (heap world0 !!! l) !! "id" = Some (VStr name) ∧
       mongo_metadata world0 !! name = Some (Docs docs) ∧
       d0 ∈ docs ∧
       ∀ k, d !! k = if decide (k ∈ unwanted_keys) then None else d0 !! k)
    (carousel (data response0) ++ most_popular_movies (data response0)
       ++ most_popular_series (data response0) ++ top_rated_movies (data response0)
       ++ top_rated_series (data response0) ++ newly_added_movies (data response0)
       ++ newly_added_episodes (data response0)).
Proof.
  apply (listed_documents_are_stored_ones world0 world0_after response0).
  exact home_world0.
Defined.

Lemma sort_key_without_seasons d :
  d !! "seasons" = None → sort_key "seasons.episodes.modified_time" d = VNull.
Proof.
  intros Hd. unfold sort_key.
  change (split_path "seasons.episodes.modified_time")
    with ["seasons"; "episodes"; "modified_time"].
  simpl. by rewrite Hd.
Qed.

(** X13.  The documents of [newly_added_episodes] no longer have the
    field they were ranked by: ["seasons"] is one of the excluded
    fields, so that the key ['seasons.episodes.modified_time'] of every
    listed document is null. *)
Theorem newly_added_episodes_have_lost_their_key w w' r :
  home w = (w', inr r) →
  Forall (λ d : document,
            d !! "seasons" = None ∧
            sort_key "seasons.episodes.modified_time" d = VNull)
         (newly_added_episodes (data r)).
Proof.
  intros H%home_inr. apply Forall_forall. intros d Hd.
  rewrite (run_newly_added_episodes _ _ _ H) in Hd.
  apply elem_of_gather in Hd as (l & _ & Hd).
  pose proof (slice_clean w "seasons.episodes.modified_time" l) as Hc.
  rewrite Forall_forall in Hc. specialize (Hc d Hd).
  assert (Hs : d !! "seasons" = None) by (apply Hc; do 2 right; left).
  split; [done|]. by apply sort_key_without_seasons.
Qed.

Lemma newly_added_episodes_have_lost_their_key_witness :
  Forall (λ d : document,
            d !! "seasons" = None ∧
            sort_key "seasons.episodes.modified_time" d = VNull)
         (newly_added_episodes (data response0)).
Proof.
  apply (newly_added_episodes_have_lost_their_key world0 world0_after response0).
  exact home_world0.
Defined.

(* ===================================================================== *)
(** ** Ties *)
(* ===================================================================== *)







(* ===================================================================== *)
(** ** The registry of rclone clients *)
(* ===================================================================== *)

Lemma rclone_setup_loop_strings {T} (RCloneAPI : document → result T) cats rclone s :
  (rclone_setup_loop RCloneAPI cats rclone).1 !! KeyStr s = rclone !! KeyStr s.
Proof.
  revert rclone. induction cats as [|c cats IH]; intros rclone; simpl; [done|].
  destruct (RCloneAPI c) as [e|api]; [done|].
  by rewrite IH, lookup_insert_ne.
Qed.

Lemma rclone_setup_loop_last {T} (RCloneAPI : document → result T) cats c rclone :
  (rclone_setup_loop RCloneAPI (cats ++ [c]) rclone).2 = inr () →
  ∃ api, RCloneAPI c = inr api ∧
    (rclone_setup_loop RCloneAPI (cats ++ [c]) rclone).1
    = <[KeyBuiltinId := api]> rclone.
Proof.
  revert rclone. induction cats as [|d cats IH]; intros rclone; simpl.
  - destruct (RCloneAPI c) as [e|api]; [done|]. eauto.
  - destruct (RCloneAPI d) as [e|api]; [done|]. intros H.
    destruct (IH _ H) as (api' & Hc & ->). exists api'. split; [done|].
    by rewrite insert_insert_eq.
Qed.

(** X15.  The loop of [rclone_setup] registers every client under the
    one key [id], the built-in function: no entry of [rclone] is ever
    keyed by a string, so that no category can be looked up by its
    identifier, and after a setup that went through [rclone] holds the
    client of the last category only. *)
Theorem rclone_registry_keeps_one_client
    {T} (RCloneAPI : document → result T) (categories : list document) :
  let rclone := (rclone_setup_loop RCloneAPI categories ∅).1 in
  (∀ s, rclone !! KeyStr s = None) ∧
  (size rclone ≤ 1)%nat ∧
  ((rclone_setup_loop RCloneAPI categories ∅).2 = inr () →
   match last categories with
   | None => rclone = ∅
   | Some c => ∃ api, RCloneAPI c = inr api ∧ rclone = {[ KeyBuiltinId := api ]}
   end).
Proof.
  cbv zeta.
  assert (Hs : ∀ s, (rclone_setup_loop RCloneAPI categories ∅).1 !! KeyStr s = None).
  { intros s. by rewrite rclone_setup_loop_strings. }
  split_and!; [done| |].
  - destruct ((rclone_setup_loop RCloneAPI categories ∅).1 !! KeyBuiltinId)
      as [api|] eqn:Hb.
    + assert ((rclone_setup_loop RCloneAPI categories ∅).1
              = {[ KeyBuiltinId := api ]}) as ->.
      { apply map_eq. intros [|s].
        - by rewrite Hb, lookup_singleton_eq.
        - by rewrite Hs, lookup_singleton_ne. }
      rewrite map_size_singleton. lia.
    + assert ((rclone_setup_loop RCloneAPI categories ∅).1 = ∅) as ->.
      { apply map_eq. intros [|s]; rewrite lookup_empty; [done|apply Hs]. }
      rewrite map_size_empty. lia.
  - destruct categories as [|c0 cs] using rev_ind; [done|].
    rewrite last_snoc. intros H.
    destruct (rclone_setup_loop_last _ _ _ _ H) as (api & Hc & ->).
    exists api. by rewrite insert_empty.
Qed.
